(** * The rule engine of beancount/ingest/rule.py

    A shallow embedding of [RuleMeta] and [Ruler] and the properties of
    [Ruler.match], [Ruler._match], [Ruler.garther_accounts] and the
    constructor.

    Python objects are modelled by the type [value] (the values a YAML
    document and a record can hold: None, booleans, integers, strings, lists
    and string-keyed mappings; floats and dates are outside the model).
    Strings are byte strings holding UTF-8, on which equality, containment,
    splitting and ordering coincide with Python's code-point versions.
    A raised exception is a [Raise] result.  The rule objects held by the
    engine are mutable ([_match] assigns [is_mask]): the functions that can
    reach that assignment return the updated rule(s) next to their result. *)

From Stdlib Require Import String Ascii List ZArith NArith Bool Lia.
From Stdlib Require Import Sorted Permutation.
Import ListNotations.
Local Open Scope string_scope.
Set Warnings "-register-all".

(** ** Python values *)

Inductive value : Type :=
| VNone
| VBool (b : bool)
| VInt (z : Z)
| VStr (s : string)
| VList (l : list value)
| VDict (d : list (string * value)).

Inductive exn : Type :=
| KeyError | TypeError | AttributeError | ValueError | AssertionError
| PyException.

Inductive result (A : Type) : Type :=
| Ok (a : A)
| Raise (e : exn).
Arguments Ok {A} a.
Arguments Raise {A} e.

Definition bind {A B} (m : result A) (f : A -> result B) : result B :=
  match m with
  | Ok a => f a
  | Raise e => Raise e
  end.

Notation "x <- m ;; k" := (bind m (fun x => k))
  (at level 61, m at next level, right associativity).

(** A Python dict with string keys, in insertion order. *)
Definition dict (A : Type) : Type := list (string * A).

Fixpoint dict_get {A} (d : dict A) (k : string) : option A :=
  match d with
  | [] => None
  | (k', v) :: d' => if String.eqb k' k then Some v else dict_get d' k
  end.

Definition dict_has {A} (d : dict A) (k : string) : bool :=
  match dict_get d k with Some _ => true | None => false end.

(** [d[k]] *)
Definition subscript {A} (d : dict A) (k : string) : result A :=
  match dict_get d k with
  | Some v => Ok v
  | None => Raise KeyError
  end.

(** [bool(v)] *)
Definition truthy (v : value) : bool :=
  match v with
  | VNone => false
  | VBool b => b
  | VInt z => negb (Z.eqb z 0)
  | VStr s => negb (String.eqb s "")
  | VList l => match l with [] => false | _ => true end
  | VDict d => match d with [] => false | _ => true end
  end.

Definition as_num (v : value) : option Z :=
  match v with
  | VBool b => Some (if b then 1%Z else 0%Z)
  | VInt z => Some z
  | _ => None
  end.

(** [a == b] *)
Fixpoint py_eq (a b : value) : bool :=
  match a, b with
  | VNone, VNone => true
  | VStr s, VStr t => String.eqb s t
  | VBool x, VBool y => Bool.eqb x y
  | VBool x, VInt z => Z.eqb (if x then 1 else 0) z
  | VInt z, VBool y => Z.eqb z (if y then 1 else 0)
  | VInt z, VInt w => Z.eqb z w
  | VList l, VList m =>
      (fix go (l m : list value) : bool :=
         match l, m with
         | [], [] => true
         | x :: l', y :: m' => py_eq x y && go l' m'
         | _, _ => false
         end) l m
  | VDict d, VDict e =>
      Nat.eqb (List.length d) (List.length e) &&
      (fix go (d : list (string * value)) : bool :=
         match d with
         | [] => true
         | (k, v) :: d' =>
             match dict_get e k with
             | Some w => py_eq v w
             | None => false
             end && go d'
         end) d
  | _, _ => false
  end.

Definition is_str (v : value) : bool :=
  match v with VStr _ => true | _ => false end.

Definition is_none (v : value) : bool :=
  match v with VNone => true | _ => false end.

(** ** Strings *)

(** [sub in s] *)
Fixpoint contains (sub s : string) : bool :=
  prefix sub s ||
  match s with
  | EmptyString => false
  | String _ s' => contains sub s'
  end.

(** [s.split(sep)] for a non-empty [sep]: [cur] is the piece being read and
    [skip] the number of bytes of a separator still to pass over. *)
Fixpoint split_go (sep : string) (skip : nat) (cur s : string) : list string :=
  match s with
  | EmptyString => [cur]
  | String c s' =>
      match skip with
      | S n => split_go sep n cur s'
      | O =>
          if prefix sep s
          then cur :: split_go sep (String.length sep - 1) "" s'
          else split_go sep 0 (cur ++ String c "") s'
      end
  end.

Definition split (s sep : string) : result (list string) :=
  if String.eqb sep "" then Raise ValueError else Ok (split_go sep 0 "" s).

(** The code points for which [str.isspace] holds, as UTF-8: the length in
    bytes of the white-space character at the head of [l], or 0. *)
Definition ws_len (l : list N) : nat :=
  match l with
  | c :: r =>
      if ((9 <=? c) && (c <=? 13) || (28 <=? c) && (c <=? 32))%N then 1
      else match r with
           | d :: r' =>
               if ((c =? 194) && ((d =? 133) || (d =? 160)))%N then 2
               else match r' with
                    | e :: _ =>
                        if ((c =? 225) && (d =? 154) && (e =? 128)
                            || (c =? 226) && (d =? 128)
                               && ((128 <=? e) && (e <=? 138) || (e =? 168)
                                   || (e =? 169) || (e =? 175))
                            || (c =? 226) && (d =? 129) && (e =? 159)
                            || (c =? 227) && (d =? 128) && (e =? 128))%N
                        then 3 else 0
                    | [] => 0
                    end
           | [] => 0
           end
  | [] => 0
  end.

(** The same read from the end: [l] is the reversed string. *)
Definition ws_len_rev (l : list N) : nat :=
  match l with
  | c :: r =>
      if ((9 <=? c) && (c <=? 13) || (28 <=? c) && (c <=? 32))%N then 1
      else match r with
           | d :: r' =>
               if ((d =? 194) && ((c =? 133) || (c =? 160)))%N then 2
               else match r' with
                    | e :: _ => if Nat.eqb (ws_len [e; d; c]) 3 then 3 else 0
                    | [] => 0
                    end
           | [] => 0
           end
  | [] => 0
  end.

Fixpoint strip_go (len : list N -> nat) (fuel : nat) (l : list ascii)
  : list ascii :=
  match fuel with
  | O => l
  | S f =>
      match len (map N_of_ascii l) with
      | O => l
      | n => strip_go len f (skipn n l)
      end
  end.

(** [s.strip()] *)
Definition strip (s : string) : string :=
  let l := list_ascii_of_string s in
  let l1 := strip_go ws_len (List.length l) l in
  let l2 := strip_go ws_len_rev (List.length l1) (rev l1) in
  string_of_list_ascii (rev l2).


(** The characters of a string, for iteration over a [str]: a byte of the
    form 10xxxxxx continues the character before it. *)
Fixpoint chars_go (cur : string) (s : string) : list string :=
  match s with
  | EmptyString => [cur]
  | String c s' =>
      if ((128 <=? N_of_ascii c) && (N_of_ascii c <? 192))%N
      then chars_go (cur ++ String c "") s'
      else cur :: chars_go (String c "") s'
  end.

Definition chars (s : string) : list string :=
  match s with
  | EmptyString => []
  | String c s' => chars_go (String c "") s'
  end.

(** ** RuleMeta *)

Inductive field : Type :=
| RULE_PAYEE | RULE_ITEM | RULE_TXN_TYPE | RULE_TXN_METHOD | RULE_TXN_INOUT
| RULE_TXN_INPUT | RULE_TXN_OUTPUT | RULE_TXN_STATUS | RULE_TXN_META
| RULE_TXN_MASK | RULE_TXN_EXCLUDE | RULE_START_TIME | RULE_END_TIME
| RULE_MINUS_ACCOUNT | RULE_PLUS_ACCOUNT | RULE_SEPERATOR.

(** The string each constant stands for. *)
Definition field_name (k : field) : string :=
  match k with
  | RULE_PAYEE => "payee"
  | RULE_ITEM => "item"
  | RULE_TXN_TYPE => "txn_type"
  | RULE_TXN_METHOD => "txn_method"
  | RULE_TXN_INOUT => "txn_inout"
  | RULE_TXN_INPUT => "txn_input"
  | RULE_TXN_OUTPUT => "txn_output"
  | RULE_TXN_STATUS => "txn_status"
  | RULE_TXN_META => "txn_meta"
  | RULE_TXN_MASK => "txn_mask"
  | RULE_TXN_EXCLUDE => "txn_exclude"
  | RULE_START_TIME => "start_time"
  | RULE_END_TIME => "end_time"
  | RULE_MINUS_ACCOUNT => "method_account"
  | RULE_PLUS_ACCOUNT => "target_account"
  | RULE_SEPERATOR => "seperator"
  end.

(** [k1 == k2] on the constants: their strings are pairwise distinct. *)
Definition field_eqb (k1 k2 : field) : bool :=
  String.eqb (field_name k1) (field_name k2).

Record RuleMeta : Type := mkRuleMeta {
  payee : value;
  item : value;
  seperator : value;
  txn_type : value;
  txn_method : value;
  txn_inout : value;
  txn_status : value;
  start_time : value;
  end_time : value;
  method_account : value;
  target_account : value;
  txn_meta : value;
  txn_input : value;
  txn_output : value;
  is_mask : option bool;
  txn_mask : value;
  txn_exclude : value
}.

(** [RuleMeta()] *)
Definition RuleMeta_init : RuleMeta :=
  mkRuleMeta VNone VNone VNone VNone VNone VNone VNone VNone VNone VNone
             VNone VNone VNone VNone None VNone VNone.

Definition get_fields : list field :=
  [ RULE_PAYEE; RULE_ITEM; RULE_TXN_TYPE; RULE_TXN_METHOD;
    RULE_TXN_INOUT; RULE_START_TIME; RULE_END_TIME; RULE_MINUS_ACCOUNT;
    RULE_PLUS_ACCOUNT; RULE_SEPERATOR; RULE_TXN_STATUS; RULE_TXN_META;
    RULE_TXN_INPUT; RULE_TXN_OUTPUT; RULE_TXN_MASK; RULE_TXN_EXCLUDE ].

Definition getattr (r : RuleMeta) (k : field) : value :=
  match k with
  | RULE_PAYEE => payee r
  | RULE_ITEM => item r
  | RULE_TXN_TYPE => txn_type r
  | RULE_TXN_METHOD => txn_method r
  | RULE_TXN_INOUT => txn_inout r
  | RULE_TXN_INPUT => txn_input r
  | RULE_TXN_OUTPUT => txn_output r
  | RULE_TXN_STATUS => txn_status r
  | RULE_TXN_META => txn_meta r
  | RULE_TXN_MASK => txn_mask r
  | RULE_TXN_EXCLUDE => txn_exclude r
  | RULE_START_TIME => start_time r
  | RULE_END_TIME => end_time r
  | RULE_MINUS_ACCOUNT => method_account r
  | RULE_PLUS_ACCOUNT => target_account r
  | RULE_SEPERATOR => seperator r
  end.

Definition setattr (r : RuleMeta) (k : field) (v : value) : RuleMeta :=
  let '(mkRuleMeta pa it se ty me io st t0 t1 ma ta mt ip op im mk ex) := r in
  match k with
  | RULE_PAYEE => mkRuleMeta v it se ty me io st t0 t1 ma ta mt ip op im mk ex
  | RULE_ITEM => mkRuleMeta pa v se ty me io st t0 t1 ma ta mt ip op im mk ex
  | RULE_SEPERATOR =>
      mkRuleMeta pa it v ty me io st t0 t1 ma ta mt ip op im mk ex
  | RULE_TXN_TYPE =>
      mkRuleMeta pa it se v me io st t0 t1 ma ta mt ip op im mk ex
  | RULE_TXN_METHOD =>
      mkRuleMeta pa it se ty v io st t0 t1 ma ta mt ip op im mk ex
  | RULE_TXN_INOUT =>
      mkRuleMeta pa it se ty me v st t0 t1 ma ta mt ip op im mk ex
  | RULE_TXN_STATUS =>
      mkRuleMeta pa it se ty me io v t0 t1 ma ta mt ip op im mk ex
  | RULE_START_TIME =>
      mkRuleMeta pa it se ty me io st v t1 ma ta mt ip op im mk ex
  | RULE_END_TIME =>
      mkRuleMeta pa it se ty me io st t0 v ma ta mt ip op im mk ex
  | RULE_MINUS_ACCOUNT =>
      mkRuleMeta pa it se ty me io st t0 t1 v ta mt ip op im mk ex
  | RULE_PLUS_ACCOUNT =>
      mkRuleMeta pa it se ty me io st t0 t1 ma v mt ip op im mk ex
  | RULE_TXN_META =>
      mkRuleMeta pa it se ty me io st t0 t1 ma ta v ip op im mk ex
  | RULE_TXN_INPUT =>
      mkRuleMeta pa it se ty me io st t0 t1 ma ta mt v op im mk ex
  | RULE_TXN_OUTPUT =>
      mkRuleMeta pa it se ty me io st t0 t1 ma ta mt ip v im mk ex
  | RULE_TXN_MASK =>
      mkRuleMeta pa it se ty me io st t0 t1 ma ta mt ip op im v ex
  | RULE_TXN_EXCLUDE =>
      mkRuleMeta pa it se ty me io st t0 t1 ma ta mt ip op im mk v
  end.

(** [r.is_mask = m] *)
Definition set_is_mask (r : RuleMeta) (m : option bool) : RuleMeta :=
  let '(mkRuleMeta pa it se ty me io st t0 t1 ma ta mt ip op _ mk ex) := r in
  mkRuleMeta pa it se ty me io st t0 t1 ma ta mt ip op m mk ex.

Fixpoint is_txn_method_loop (r : RuleMeta) (ks : list field) (ans : nat)
  : bool :=
  match ks with
  | [] => Nat.eqb ans 2
  | k :: ks' =>
      if truthy (getattr r k) then
        if field_eqb k RULE_TXN_METHOD || field_eqb k RULE_MINUS_ACCOUNT
        then is_txn_method_loop r ks' (ans + 1)
        else false
      else is_txn_method_loop r ks' ans
  end.

Definition is_txn_method (r : RuleMeta) : bool :=
  is_txn_method_loop r get_fields 0.

Fixpoint check_loop (r : RuleMeta) (ks : list field) (c : nat) : nat :=
  match ks with
  | [] => c
  | k :: ks' =>
      if field_eqb k RULE_PLUS_ACCOUNT || field_eqb k RULE_MINUS_ACCOUNT
      then check_loop r ks' c
      else if is_none (getattr r k) then check_loop r ks' (c + 1)
      else check_loop r ks' c
  end.

Definition check (r : RuleMeta) : bool :=
  if Nat.eqb (check_loop r get_fields 0) (List.length get_fields - 2)
  then false else true.

(** ** Ruler *)

Definition _DEFAULT_MINUS : string := "default_method_account".
Definition _DEFAULT_PLUS : string := "default_target_account".

(** [self.config] is the document read from the YAML file and [self.rules]
    the rule objects, which [_match] updates in place. *)
Record Ruler : Type := mkRuler {
  config : value;
  rules : list RuleMeta
}.

(** [x in c] for a string [x] *)
Definition py_in (x : string) (c : value) : result bool :=
  match c with
  | VDict d => Ok (dict_has d x)
  | VList l => Ok (existsb (py_eq (VStr x)) l)
  | VStr s => Ok (contains x s)
  | _ => Raise TypeError
  end.

(** [c[k]] for a string [k] *)
Definition py_getitem (c : value) (k : string) : result value :=
  match c with
  | VDict d => subscript d k
  | _ => Raise TypeError
  end.

(** [for x in c] *)
Definition py_iter (c : value) : result (list value) :=
  match c with
  | VList l => Ok l
  | VDict d => Ok (map (fun kv => VStr (fst kv)) d)
  | VStr s => Ok (map VStr (chars s))
  | _ => Raise TypeError
  end.

(** The record given to [match] and the field-name resolver. *)
Definition Meta : Type := dict value.
Definition resolver : Type := string -> option string.

(** [bool(func_map(k))]: the resolved key when it is a non-empty string. *)
Definition resolved (func_map : option resolver) (k : string)
  : option string :=
  match func_map with
  | None => None
  | Some f =>
      match f k with
      | Some s => if String.eqb s "" then None else Some s
      | None => None
      end
  end.

(** Lines 147-150: the candidate values of a rule field. *)
Definition candidates (rule : RuleMeta) (values : value)
  : result (list value) :=
  if truthy (seperator rule) then
    match values with
    | VStr s =>
        match seperator rule with
        | VStr sep =>
            l <- split s sep ;; Ok (map (fun x => VStr (strip x)) l)
        | _ => Raise TypeError
        end
    | _ => Raise AttributeError
    end
  else Ok [values].

(** Lines 155-163, the loop over the candidates for one metadata value [v]:
    [fc] is [field_check] and [m] the rule's [is_mask]. *)
Fixpoint scan_values (mask : bool) (exclude v : value) (values : list value)
    (fc : bool) (m : option bool) : result bool * option bool :=
  match values with
  | [] => (Ok fc, m)
  | val :: rest =>
      match v, val with
      | VStr sv, VStr sval =>
          if contains sval sv then
            if mask then
              if truthy exclude then
                match exclude with
                | VStr e =>
                    scan_values mask exclude v rest true
                                (Some (negb (contains e sv)))
                | _ => (Raise TypeError, m)
                end
              else scan_values mask exclude v rest true (Some true)
            else scan_values mask exclude v rest true m
          else scan_values mask exclude v rest fc m
      | _, _ => scan_values mask exclude v rest fc m
      end
  end.

(** Lines 154-163, the loop over [meta.items()]. *)
Fixpoint scan_meta (mask : bool) (exclude : value) (meta : Meta)
    (values : list value) (fc : bool) (m : option bool)
  : result bool * option bool :=
  match meta with
  | [] => (Ok fc, m)
  | (_, v) :: meta' =>
      match scan_values mask exclude v values fc m with
      | (Ok fc', m') => scan_meta mask exclude meta' values fc' m'
      | (Raise e, m') => (Raise e, m')
      end
  end.

(** Lines 165-168: equality with the record's value under the resolved
    key. *)
Fixpoint equal_values (meta : Meta) (key : option string)
    (values : list value) : result bool :=
  match values with
  | [] => Ok false
  | v :: rest =>
      match key with
      | Some s =>
          x <- subscript meta s ;;
          if py_eq v x then Ok true else equal_values meta key rest
      | None => equal_values meta key rest
      end
  end.

Fixpoint _match_loop (ks : list field) (rule : RuleMeta) (meta : Meta)
    (func_map : option resolver) : result bool * RuleMeta :=
  match ks with
  | [] => (Ok true, rule)
  | k :: ks' =>
      if field_eqb k RULE_MINUS_ACCOUNT || field_eqb k RULE_PLUS_ACCOUNT
         || field_eqb k RULE_SEPERATOR || field_eqb k RULE_TXN_EXCLUDE
      then _match_loop ks' rule meta func_map
      else
        let values := getattr rule k in
        if is_none values then _match_loop ks' rule meta func_map
        else
          match candidates rule values with
          | Raise e => (Raise e, rule)
          | Ok vals =>
              if field_eqb k RULE_TXN_META || field_eqb k RULE_TXN_MASK then
                let '(fc, m) :=
                  scan_meta (field_eqb k RULE_TXN_MASK)
                            (getattr rule RULE_TXN_EXCLUDE) meta vals false
                            (is_mask rule) in
                let rule' := set_is_mask rule m in
                match fc with
                | Raise e => (Raise e, rule')
                | Ok true => _match_loop ks' rule' meta func_map
                | Ok false => (Ok false, rule')
                end
              else
                match equal_values meta (resolved func_map (field_name k))
                                   vals with
                | Raise e => (Raise e, rule)
                | Ok true => _match_loop ks' rule meta func_map
                | Ok false => (Ok false, rule)
                end
          end
  end.

(** [self._match(rule, meta, func_map)]: the result and the rule as the call
    leaves it. *)
Definition _match (rule : RuleMeta) (meta : Meta)
    (func_map : option resolver) : result bool * RuleMeta :=
  _match_loop get_fields rule meta func_map.

(** Line 211: the test of a method rule. *)
Definition method_test (rule : RuleMeta) (meta : Meta)
    (func_map : option resolver) : result bool :=
  match resolved func_map (field_name RULE_TXN_METHOD) with
  | Some s =>
      x <- subscript meta s ;; Ok (py_eq (getattr rule RULE_TXN_METHOD) x)
  | None => Ok false
  end.

(** Lines 205-212: the first loop of [match]. *)
Fixpoint pass1 (rs : list RuleMeta) (meta : Meta)
    (func_map : option resolver) (ans : RuleMeta) : result RuleMeta :=
  match rs with
  | [] => Ok ans
  | rule :: rest =>
      if negb (check rule) then Raise AssertionError
      else if is_txn_method rule then
        hit <- method_test rule meta func_map ;;
        pass1 rest meta func_map
              (if hit
               then setattr ans RULE_MINUS_ACCOUNT
                            (getattr rule RULE_MINUS_ACCOUNT)
               else ans)
      else pass1 rest meta func_map ans
  end.

(** Lines 245-248. *)
Fixpoint copy_fields (ks : list field) (rule ans : RuleMeta) : RuleMeta :=
  match ks with
  | [] => ans
  | k :: ks' =>
      if field_eqb k RULE_MINUS_ACCOUNT || field_eqb k RULE_PLUS_ACCOUNT
      then copy_fields ks' rule ans
      else copy_fields ks' rule (setattr ans k (getattr rule k))
  end.

(** Lines 235-248: what a matching rule that does not mask writes to the
    result. *)
Definition apply_rule (rule ans : RuleMeta) : RuleMeta :=
  let method_account := getattr rule RULE_MINUS_ACCOUNT in
  let target_account := getattr rule RULE_PLUS_ACCOUNT in
  let ans1 :=
    if truthy method_account
    then setattr ans RULE_MINUS_ACCOUNT method_account else ans in
  let ans2 :=
    if truthy target_account
    then setattr ans1 RULE_PLUS_ACCOUNT target_account else ans1 in
  copy_fields get_fields rule ans2.

(** How the second loop leaves a rule list: it ran to the end, it left
    through [break], or an exception was raised. *)
Inductive outcome : Type :=
| Next (ans : RuleMeta)
| Stop (ans : RuleMeta)
| Raised (e : exn).

(** [if ans.is_mask] *)
Definition mask_set (m : option bool) : bool :=
  match m with Some b => b | None => false end.

(** Lines 217-248: the second loop of [match], with the rules as it leaves
    them. *)
Fixpoint pass2 (rs : list RuleMeta) (meta : Meta)
    (func_map : option resolver) (ans : RuleMeta)
  : outcome * list RuleMeta :=
  match rs with
  | [] => (Next ans, [])
  | rule :: rest =>
      if is_txn_method rule then
        let '(o, rest') := pass2 rest meta func_map ans in
        (o, rule :: rest')
      else if negb (check rule) then (Raised AssertionError, rule :: rest)
      else
        let '(m, rule') := _match rule meta func_map in
        match m with
        | Raise e => (Raised e, rule' :: rest)
        | Ok false =>
            let '(o, rest') := pass2 rest meta func_map ans in
            (o, rule' :: rest')
        | Ok true =>
            let ans1 := set_is_mask ans (is_mask rule') in
            if mask_set (is_mask ans1) then (Stop ans1, rule' :: rest)
            else
              let '(o, rest') :=
                pass2 rest meta func_map (apply_rule rule' ans1) in
              (o, rule' :: rest')
        end
  end.

(** [assert ans.method_account; assert ans.target_account] *)
Definition assert_accounts (ans : RuleMeta) : result RuleMeta :=
  if truthy (method_account ans) then
    if truthy (target_account ans) then Ok ans else Raise AssertionError
  else Raise AssertionError.

Definition identity : resolver := fun x => Some x.

(** Lines 197-202: the result before the first loop. *)
Definition initial_ans (cfg : value) : result RuleMeta :=
  minus <- py_getitem cfg _DEFAULT_MINUS ;;
  plus <- py_getitem cfg _DEFAULT_PLUS ;;
  assert_accounts
    (setattr (setattr RuleMeta_init RULE_MINUS_ACCOUNT minus)
             RULE_PLUS_ACCOUNT plus).

(** Lines 193-195: [match] called without a resolver uses the identity. *)
Definition default_resolver (func_map : option resolver) : option resolver :=
  match func_map with
  | None => Some identity
  | Some f => Some f
  end.

(** [self.match(meta, func_map)]: the returned [ans] or the exception, and
    the engine as the call leaves it. *)
Definition match_ (self : Ruler) (meta : Meta) (func_map : option resolver)
  : result RuleMeta * Ruler :=
  let func_map := default_resolver func_map in
  match (ans <- initial_ans (config self) ;;
         ans1 <- pass1 (rules self) meta func_map ans ;;
         assert_accounts ans1) with
  | Raise e => (Raise e, self)
  | Ok ans1 =>
      let '(o, rs') := pass2 (rules self) meta func_map ans1 in
      let self' := mkRuler (config self) rs' in
      match o with
      | Raised e => (Raise e, self')
      | Next ans2 | Stop ans2 => (assert_accounts ans2, self')
      end
  end.

(** *** garther_accounts *)

(** A Python set is kept as the list of its elements, pairwise different
    under [==]; only hashable values can be looked up or added. *)
Definition hashable (v : value) : bool :=
  match v with
  | VList _ | VDict _ => false
  | _ => true
  end.

Definition set_mem (s : list value) (v : value) : result bool :=
  if hashable v then Ok (existsb (py_eq v) s) else Raise TypeError.

Definition set_add (s : list value) (v : value) : result (list value) :=
  b <- set_mem s v ;; Ok (if b then s else (s ++ [v])%list).

Fixpoint insert_by {A} (leb : A -> A -> bool) (x : A) (l : list A) : list A :=
  match l with
  | [] => [x]
  | y :: l' => if leb x y then x :: l else y :: insert_by leb x l'
  end.

Fixpoint sort_by {A} (leb : A -> A -> bool) (l : list A) : list A :=
  match l with
  | [] => []
  | x :: l' => insert_by leb x (sort_by leb l')
  end.

(** [a <= b] where Python defines it among the hashable values: between
    two strings (by code point), and between numbers. *)
Definition value_leb (a b : value) : bool :=
  match a, b with
  | VStr s, VStr t => String.leb s t
  | _, _ =>
      match as_num a, as_num b with
      | Some x, Some y => Z.leb x y
      | _, _ => false
      end
  end.

Definition is_num (v : value) : bool :=
  match as_num v with Some _ => true | None => false end.

(** [l.sort()] on the elements of a set: with two or more elements, some
    pair of different kinds is compared unless all are strings or all are
    numbers. *)
Definition py_sort (l : list value) : result (list value) :=
  match l with
  | [] | [_] => Ok l
  | _ =>
      if forallb is_str l || forallb is_num l
      then Ok (sort_by value_leb l)
      else Raise TypeError
  end.

Definition add_account (ans : list value) (account : value)
  : result (list value) :=
  if truthy account then
    b <- set_mem ans account ;;
    if negb b then set_add ans account else Ok ans
  else Ok ans.

Fixpoint garther_loop (rs : list RuleMeta) (ans : list value)
  : result (list value) :=
  match rs with
  | [] => Ok ans
  | rule :: rest =>
      ans1 <- add_account ans (getattr rule RULE_MINUS_ACCOUNT) ;;
      ans2 <- add_account ans1 (getattr rule RULE_PLUS_ACCOUNT) ;;
      garther_loop rest ans2
  end.

Definition garther_accounts (self : Ruler) : result (list value) :=
  minus <- py_getitem (config self) _DEFAULT_MINUS ;;
  plus <- py_getitem (config self) _DEFAULT_PLUS ;;
  s0 <- set_add [] minus ;;
  s1 <- set_add s0 plus ;;
  ans <- garther_loop (rules self) s1 ;;
  py_sort ans.

(** *** Construction *)

(** Lines 126-130: one rule from one entry of the [rules] list. *)
Fixpoint load_fields (ks : list field) (cfg : value) (rule : RuleMeta)
  : result RuleMeta :=
  match ks with
  | [] => Ok rule
  | f :: ks' =>
      b <- py_in (field_name f) cfg ;;
      if b then
        v <- py_getitem cfg (field_name f) ;;
        load_fields ks' cfg (setattr rule f v)
      else load_fields ks' cfg rule
  end.

Fixpoint convert_loop (cfgs : list value) : result (list RuleMeta) :=
  match cfgs with
  | [] => Ok []
  | cfg :: rest =>
      rule <- load_fields get_fields cfg RuleMeta_init ;;
      rs <- convert_loop rest ;;
      Ok (rule :: rs)
  end.

Definition _convert_to_rules (yaml_config : value)
  : result (list RuleMeta) :=
  b <- py_in "rules" yaml_config ;;
  if negb b then Raise PyException
  else
    x <- py_getitem yaml_config "rules" ;;
    cfgs <- py_iter x ;;
    convert_loop cfgs.

(** [Ruler(filename)]: [file] is [None] when no file of that name exists
    and the parsed YAML document otherwise. *)
Definition Ruler_init (file : option value) : result Ruler :=
  match file with
  | None => Raise PyException
  | Some doc =>
      rs <- _convert_to_rules doc ;;
      if forallb check rs then Ok (mkRuler doc rs)
      else Raise AssertionError
  end.

(** ** Notions used in the statements *)

(** Two rule objects with the same attributes, [is_mask] apart. *)
Definition same_fields (r r' : RuleMeta) : Prop :=
  set_is_mask r' None = set_is_mask r None.

Definition is_account (k : field) : bool :=
  field_eqb k RULE_MINUS_ACCOUNT || field_eqb k RULE_PLUS_ACCOUNT.

(** Both accounts of the result are set. *)
Definition accounts_set (ans : RuleMeta) : Prop :=
  truthy (method_account ans) = true /\ truthy (target_account ans) = true.

(** The record's value under the resolved [txn_method] key, when the
    resolver gives a key. *)
Definition method_value (meta : Meta) (func_map : option resolver)
  : result (option value) :=
  match resolved func_map (field_name RULE_TXN_METHOD) with
  | Some s => x <- subscript meta s ;; Ok (Some x)
  | None => Ok None
  end.

(** A method rule whose [txn_method] equals the record's. *)
Definition method_hit (x : option value) (rule : RuleMeta) : bool :=
  is_txn_method rule &&
  match x with
  | Some v => py_eq (txn_method rule) v
  | None => false
  end.

(** The method account the first loop ends with. *)
Fixpoint last_method_account (x : option value) (rs : list RuleMeta)
    (acc : value) : value :=
  match rs with
  | [] => acc
  | rule :: rest =>
      last_method_account x rest
        (if method_hit x rule then method_account rule else acc)
  end.

(** The state of a rule object that [RuleMeta()] and [_match] can produce:
    [is_mask] is assigned only under a [txn_mask]. *)
Definition mask_wf (r : RuleMeta) : Prop :=
  is_none (txn_mask r) = true -> is_mask r = None.

(** One step of the loop, read off the result and off the rules. *)
Definition pass2_step (meta : Meta) (func_map : option resolver)
    (rule : RuleMeta) (rest : list RuleMeta) (ans : RuleMeta) : outcome :=
  if is_txn_method rule then fst (pass2 rest meta func_map ans)
  else if negb (check rule) then Raised AssertionError
  else
    match fst (_match rule meta func_map) with
    | Raise e => Raised e
    | Ok false => fst (pass2 rest meta func_map ans)
    | Ok true =>
        let m := is_mask (snd (_match rule meta func_map)) in
        if mask_set m then Stop (set_is_mask ans m)
        else fst (pass2 rest meta func_map
                        (apply_rule (snd (_match rule meta func_map))
                                    (set_is_mask ans m)))
    end.

(** The outcome of the second loop as the result of [match]. *)
Definition outcome_result (o : outcome) : result RuleMeta :=
  match o with
  | Raised e => Raise e
  | Next a | Stop a => Ok a
  end.

(** Some rules and records used below. *)
Definition rule_of (l : list (field * value)) : RuleMeta :=
  fold_left (fun r kv => setattr r (fst kv) (snd kv)) l RuleMeta_init.

Definition wechat_rule : RuleMeta :=
  rule_of [(RULE_TXN_METHOD, VStr "wechat");
           (RULE_MINUS_ACCOUNT, VStr "Assets:Wechat")].

Definition wechat_rule2 : RuleMeta :=
  rule_of [(RULE_TXN_METHOD, VStr "wechat");
           (RULE_MINUS_ACCOUNT, VStr "Assets:Wechat:Cash")].

Definition jim_rule : RuleMeta :=
  rule_of [(RULE_PAYEE, VStr "jim");
           (RULE_MINUS_ACCOUNT, VStr "Assets:Bank:CCB");
           (RULE_PLUS_ACCOUNT, VStr "Assets:Wechat")].

Definition mike_rule : RuleMeta := rule_of [(RULE_PAYEE, VStr "mike")].

Definition fixme_ans : RuleMeta :=
  rule_of [(RULE_MINUS_ACCOUNT, VStr "Assets:FIXME");
           (RULE_PLUS_ACCOUNT, VStr "Expenses:FIXME")].

(** The engine of [test_ruler_match] in rule_test.py. *)
Definition test_doc : value :=
  VDict [("default_method_account", VStr "Assets:FIXME");
         ("default_target_account", VStr "Expenses:FIXME");
         ("rules",
          VList [VDict [("payee", VStr "mike")];
                 VDict [("payee", VStr "jim");
                        ("method_account", VStr "Assets:Bank:CCB");
                        ("target_account", VStr "Assets:Wechat")]])].

Definition test_ruler : Ruler := mkRuler test_doc [mike_rule; jim_rule].

Definition foo_rule : RuleMeta :=
  rule_of [(RULE_TXN_MASK, VStr "foo"); (RULE_TXN_EXCLUDE, VStr "bar")].

Definition fixme_cfg : value :=
  VDict [("default_method_account", VStr "Assets:FIXME");
         ("default_target_account", VStr "Expenses:FIXME")].

Definition wechat_foobaz : Meta :=
  [("txn_method", VStr "wechat"); ("memo", VStr "foobaz")].

Definition jim_rule1 : RuleMeta :=
  rule_of [(RULE_PAYEE, VStr "jim"); (RULE_ITEM, VStr "tea");
           (RULE_PLUS_ACCOUNT, VStr "Expenses:One")].

Definition jim_rule2 : RuleMeta :=
  rule_of [(RULE_PAYEE, VStr "jim");
           (RULE_PLUS_ACCOUNT, VStr "Expenses:Two")].

Definition jim_rule3 : RuleMeta :=
  rule_of [(RULE_PAYEE, VStr "jim");
           (RULE_PLUS_ACCOUNT, VStr "Expenses:Three")].

Definition jim_tea : Meta := [("payee", VStr "jim"); ("item", VStr "tea")].

(** A metadata value that is a string containing [c]. *)
Definition hit (c : string) (v : value) : bool :=
  match v with
  | VStr sv => contains c sv
  | _ => false
  end.

(** The mask state after the scan of [meta] for the candidate [c] under the
    exclusion [e]: every entry whose value contains [c] assigns it anew. *)
Fixpoint mask_after (c e : string) (meta : Meta) (m : option bool)
  : option bool :=
  match meta with
  | [] => m
  | (_, v) :: meta' =>
      mask_after c e meta'
                 (match v with
                  | VStr sv =>
                      if contains c sv then Some (negb (contains e sv)) else m
                  | _ => m
                  end)
  end.

Definition foobar_then_foobaz : Meta :=
  [("memo", VStr "foobar"); ("note", VStr "foobaz")].

Definition foobaz_then_foobar : Meta :=
  [("memo", VStr "foobaz"); ("note", VStr "foobar")].

(** The engines a program can hold: built by the constructor, then used
    for any number of [match] calls. *)
Inductive reachable : Ruler -> Prop :=
| reach_init (file : option value) (self : Ruler) :
    Ruler_init file = Ok self -> reachable self
| reach_match (self : Ruler) (meta : Meta) (func_map : option resolver) :
    reachable self -> reachable (snd (match_ self meta func_map)).

Definition foo_doc : value :=
  VDict [("default_method_account", VStr "Assets:FIXME");
         ("default_target_account", VStr "Expenses:FIXME");
         ("rules",
          VList [VDict [("txn_mask", VStr "foo");
                        ("txn_exclude", VStr "bar")]])].

Definition foo_ruler : Ruler := mkRuler foo_doc [foo_rule].

(** A default account that is missing from the configuration or empty. *)
Definition default_unset (d : dict value) (k : string) : bool :=
  match dict_get d k with
  | Some v => negb (truthy v)
  | None => true
  end.

Definition no_defaults_doc : value :=
  VDict [("rules", VList [VDict [("payee", VStr "mike")]])].

Definition empty_default_doc : value :=
  VDict [("default_method_account", VStr "");
         ("default_target_account", VStr "Expenses:FIXME");
         ("rules", VList [VDict [("payee", VStr "mike")]])].

(** The values of a rule have the types [_match] relies on: with a
    separator, every attribute is a string or [None] (so that [split]
    applies); an exclusion that is set is a string (so that [in]
    applies). *)
Definition well_typed (r : RuleMeta) : bool :=
  (negb (truthy (seperator r))
   || forallb (fun k => is_none (getattr r k) || is_str (getattr r k))
              get_fields)
  && (negb (truthy (txn_exclude r)) || is_str (txn_exclude r)).

(** Every key the resolver gives for a field name is a key of the
    record. *)
Definition keys_present (meta : Meta) (func_map : option resolver) : bool :=
  forallb (fun k =>
             match resolved func_map (field_name k) with
             | Some s => dict_has meta s
             | None => true
             end)
          get_fields.

(** The fields [_match] compares for equality with the record. *)
Definition equality_field (k : field) : bool :=
  negb (field_eqb k RULE_MINUS_ACCOUNT || field_eqb k RULE_PLUS_ACCOUNT
        || field_eqb k RULE_SEPERATOR || field_eqb k RULE_TXN_EXCLUDE)
  && negb (field_eqb k RULE_TXN_META || field_eqb k RULE_TXN_MASK).

(** A resolver that knows the payee column only. *)
Definition payee_only : resolver :=
  fun k => if String.eqb k "payee" then Some "Counterparty" else None.

Definition tea_rule : RuleMeta := rule_of [(RULE_ITEM, VStr "tea")].

Definition tea_doc : value :=
  VDict [("default_method_account", VStr "Assets:FIXME");
         ("default_target_account", VStr "Expenses:FIXME");
         ("rules",
          VList [VDict [("payee", VStr "mike")];
                 VDict [("payee", VStr "jim");
                        ("method_account", VStr "Assets:Bank:CCB");
                        ("target_account", VStr "Assets:Wechat")];
                 VDict [("item", VStr "tea")]])].

Definition tea_ruler : Ruler :=
  mkRuler tea_doc [mike_rule; jim_rule; tea_rule].

(** The account attributes of a rule are strings or [None]. *)
Definition account_typed (r : RuleMeta) : bool :=
  (is_none (method_account r) || is_str (method_account r))
  && (is_none (target_account r) || is_str (target_account r)).

(** The account names a rule sets. *)
Definition rule_sets (r : RuleMeta) (s : string) : Prop :=
  s <> "" /\ (method_account r = VStr s \/ target_account r = VStr s).

(** The fields [_match] tests: all but the four it skips. *)
Definition tested_field (k : field) : bool :=
  negb (field_eqb k RULE_MINUS_ACCOUNT || field_eqb k RULE_PLUS_ACCOUNT
        || field_eqb k RULE_SEPERATOR || field_eqb k RULE_TXN_EXCLUDE).

(** The values of a rule are strings where [_match] applies a separator or
    an exclusion: when the separator is set (truthy) it is a string, and so
    is every tested field that is not [None] (lines 147-148); when
    [txn_mask] is not [None], an exclusion that is set is a string (line
    160).  The accounts are never split, and without a [txn_mask] the
    exclusion is never applied. *)
Definition match_typed (r : RuleMeta) : bool :=
  (negb (truthy (seperator r))
   || (is_str (seperator r)
       && forallb (fun k => negb (tested_field k)
                            || is_none (getattr r k)
                            || is_str (getattr r k))
                  get_fields))
  && (is_none (txn_mask r)
      || negb (truthy (txn_exclude r)) || is_str (txn_exclude r)).

(** The field names [match] looks up in the record on account of rule
    [r]: [txn_method] for a method rule (line 211), and for any other rule
    the fields compared for equality that are not [None] (line 166). *)
Definition looks_up (r : RuleMeta) (k : field) : bool :=
  if is_txn_method r then field_eqb k RULE_TXN_METHOD
  else equality_field k && negb (is_none (getattr r k)).

(** The record has a key for every field name that [match] looks up on
    account of [r] and that the resolver resolves. *)
Definition rule_keys (r : RuleMeta) (meta : Meta)
    (func_map : option resolver) : bool :=
  forallb (fun k =>
             negb (looks_up r k)
             || match resolved func_map (field_name k) with
                | Some s => dict_has meta s
                | None => true
                end)
          get_fields.

Definition keys_for (rs : list RuleMeta) (meta : Meta)
    (func_map : option resolver) : bool :=
  forallb (fun r => rule_keys r meta func_map) rs.

(** ** Notions used in the further properties *)

(** The value an entry of the [rules] list gives to a field: [None] when
    the entry has no such key. *)
Definition lookup_field (c : dict value) (k : field) : value :=
  match dict_get c (field_name k) with
  | Some v => v
  | None => VNone
  end.

(** An entry of the [rules] list that gives some field other than the two
    accounts a value other than [None]. *)
Definition entry_valid (c : dict value) : bool :=
  existsb (fun k => negb (is_account k) && negb (is_none (lookup_field c k)))
          get_fields.

(** The fields [check] counts. *)
Definition counted (r : RuleMeta) (k : field) : bool :=
  negb (field_eqb k RULE_PLUS_ACCOUNT || field_eqb k RULE_MINUS_ACCOUNT)
  && is_none (getattr r k).

(** The rule [_convert_to_rules] builds from an entry that is a mapping:
    the loop of lines 127-130 on a dict. *)
Definition rule_of_entry (c : dict value) : RuleMeta :=
  fold_left (fun r k =>
               match dict_get c (field_name k) with
               | Some v => setattr r k v
               | None => r
               end)
            get_fields RuleMeta_init.

Definition is_dict (v : value) : bool :=
  match v with VDict _ => true | _ => false end.

(** The candidate values of field [k] of a rule, lines 147-150 (none when
    they cannot be computed). *)
Definition candidate_list (r : RuleMeta) (k : field) : list value :=
  match candidates r (getattr r k) with
  | Ok l => l
  | Raise _ => []
  end.

(** The test of line 156: both are strings and the candidate occurs in the
    record's value. *)
Definition value_hit (val v : value) : bool :=
  match v, val with
  | VStr sv, VStr sval => contains sval sv
  | _, _ => false
  end.

(** Field [k] of a rule does not stand in the way of a match: it is one of
    the four fields [_match] skips, or it is [None], or some candidate
    occurs in some value of the record ([txn_meta], [txn_mask]), or some
    candidate equals the record's value under the resolved key (the other
    fields). *)
Definition field_passes (r : RuleMeta) (meta : Meta)
    (func_map : option resolver) (k : field) : bool :=
  if field_eqb k RULE_MINUS_ACCOUNT || field_eqb k RULE_PLUS_ACCOUNT
     || field_eqb k RULE_SEPERATOR || field_eqb k RULE_TXN_EXCLUDE
  then true
  else if is_none (getattr r k) then true
  else if field_eqb k RULE_TXN_META || field_eqb k RULE_TXN_MASK then
    existsb (fun kv =>
               existsb (fun val => value_hit val (snd kv))
                       (candidate_list r k))
            meta
  else
    match resolved func_map (field_name k) with
    | Some s =>
        match dict_get meta s with
        | Some x => existsb (fun v => py_eq v x) (candidate_list r k)
        | None => false
        end
    | None => false
    end.

(** * Properties *)

Arguments _match : simpl never.
Arguments is_txn_method : simpl never.
Arguments check : simpl never.
Arguments apply_rule : simpl never.
Arguments method_test : simpl never.

(** ** Attributes *)

Lemma getattr_setattr (r : RuleMeta) (k k' : field) (v : value) :
  getattr (setattr r k v) k' = if field_eqb k k' then v else getattr r k'.
Proof. destruct r, k, k'; reflexivity. Qed.

Lemma is_mask_setattr (r : RuleMeta) (k : field) (v : value) :
  is_mask (setattr r k v) = is_mask r.
Proof. destruct r, k; reflexivity. Qed.

Lemma getattr_set_is_mask (r : RuleMeta) (m : option bool) (k : field) :
  getattr (set_is_mask r m) k = getattr r k.
Proof. destruct r, k; reflexivity. Qed.

Lemma is_mask_set_is_mask (r : RuleMeta) (m : option bool) :
  is_mask (set_is_mask r m) = m.
Proof. destruct r; reflexivity. Qed.

Lemma set_is_mask_twice (r : RuleMeta) (m m' : option bool) :
  set_is_mask (set_is_mask r m) m' = set_is_mask r m'.
Proof. destruct r; reflexivity. Qed.

Lemma set_is_mask_same (r : RuleMeta) : set_is_mask r (is_mask r) = r.
Proof. destruct r; reflexivity. Qed.

Lemma same_fields_refl (r : RuleMeta) : same_fields r r.
Proof. reflexivity. Qed.

Lemma same_fields_set (r : RuleMeta) (m : option bool) :
  same_fields r (set_is_mask r m).
Proof. unfold same_fields. apply set_is_mask_twice. Qed.

Lemma same_fields_inv (r r' : RuleMeta) :
  same_fields r r' -> r' = set_is_mask r (is_mask r').
Proof.
  unfold same_fields. intros H.
  rewrite <- (set_is_mask_twice r None), <- H, set_is_mask_twice.
  symmetry. apply set_is_mask_same.
Qed.

Lemma same_fields_getattr (r r' : RuleMeta) (k : field) :
  same_fields r r' -> getattr r' k = getattr r k.
Proof.
  intros H. rewrite (same_fields_inv _ _ H). apply getattr_set_is_mask.
Qed.

Lemma same_fields_txn_mask (r r' : RuleMeta) :
  same_fields r r' -> txn_mask r' = txn_mask r.
Proof. intros H. exact (same_fields_getattr r r' RULE_TXN_MASK H). Qed.

Lemma same_fields_target_account (r r' : RuleMeta) :
  same_fields r r' -> target_account r' = target_account r.
Proof. intros H. exact (same_fields_getattr r r' RULE_PLUS_ACCOUNT H). Qed.

Lemma same_fields_method_account (r r' : RuleMeta) :
  same_fields r r' -> method_account r' = method_account r.
Proof. intros H. exact (same_fields_getattr r r' RULE_MINUS_ACCOUNT H). Qed.

Lemma same_fields_trans (r1 r2 r3 : RuleMeta) :
  same_fields r1 r2 -> same_fields r2 r3 -> same_fields r1 r3.
Proof. unfold same_fields. congruence. Qed.

Lemma same_fields_sym (r1 r2 : RuleMeta) :
  same_fields r1 r2 -> same_fields r2 r1.
Proof. unfold same_fields. congruence. Qed.

Lemma same_fields_eq (r r' : RuleMeta) :
  same_fields r r' -> is_mask r = is_mask r' -> r = r'.
Proof.
  intros H E. rewrite (same_fields_inv _ _ H), <- E.
  symmetry. apply set_is_mask_same.
Qed.

Lemma is_txn_method_loop_set_is_mask r m ks n :
  is_txn_method_loop (set_is_mask r m) ks n = is_txn_method_loop r ks n.
Proof.
  revert n. induction ks as [|k ks IH]; intros n; simpl; [reflexivity|].
  rewrite getattr_set_is_mask, !IH. reflexivity.
Qed.

Lemma is_txn_method_set_is_mask r m :
  is_txn_method (set_is_mask r m) = is_txn_method r.
Proof. apply is_txn_method_loop_set_is_mask. Qed.

Lemma check_loop_set_is_mask r m ks n :
  check_loop (set_is_mask r m) ks n = check_loop r ks n.
Proof.
  revert n. induction ks as [|k ks IH]; intros n; simpl; [reflexivity|].
  rewrite getattr_set_is_mask, !IH. reflexivity.
Qed.

Lemma check_set_is_mask r m : check (set_is_mask r m) = check r.
Proof. unfold check. now rewrite check_loop_set_is_mask. Qed.

Lemma is_txn_method_same_fields r r' :
  same_fields r r' -> is_txn_method r' = is_txn_method r.
Proof.
  intros H. rewrite (same_fields_inv _ _ H).
  apply is_txn_method_set_is_mask.
Qed.

Lemma check_same_fields r r' : same_fields r r' -> check r' = check r.
Proof.
  intros H. rewrite (same_fields_inv _ _ H). apply check_set_is_mask.
Qed.

Lemma in_get_fields (k : field) : In k get_fields.
Proof. unfold get_fields. destruct k; cbn [In]; tauto. Qed.

Lemma list_sum_cons (a : nat) (l : list nat) :
  list_sum (a :: l) = a + list_sum l.
Proof. reflexivity. Qed.

(** What [is_txn_method] has seen when it returns [True]: every set field
    is one of the two, and with the count it started from they are two. *)
Lemma is_txn_method_loop_true (r : RuleMeta) (ks : list field) (n : nat) :
  is_txn_method_loop r ks n = true ->
  (forall k, In k ks -> truthy (getattr r k) = true ->
             field_eqb k RULE_TXN_METHOD || field_eqb k RULE_MINUS_ACCOUNT
             = true) /\
  n + list_sum (map (fun k => if truthy (getattr r k) then 1 else 0) ks) = 2.
Proof.
  revert n. induction ks as [|k ks IH]; intros n; cbn [is_txn_method_loop].
  - intros H. apply Nat.eqb_eq in H. split; [intros k []|].
    cbn [map list_sum fold_right]. lia.
  - cbn [map In]. rewrite list_sum_cons.
    destruct (truthy (getattr r k)) eqn:Ek.
    + destruct (_ || _) eqn:Ef; [|discriminate].
      intros H. apply IH in H as [H1 H2]. split; [|lia].
      intros k' [<-|Hin] Hk'; auto.
    + intros H. apply IH in H as [H1 H2]. split; [|lia].
      intros k' [<-|Hin] Hk'; [congruence|auto].
Qed.

(** A method rule has a method account and a transaction method. *)
Lemma is_txn_method_accounts (r : RuleMeta) :
  is_txn_method r = true ->
  truthy (method_account r) = true /\ truthy (txn_method r) = true.
Proof.
  intros H. apply is_txn_method_loop_true in H as [H1 H2].
  assert (F : forall k,
             field_eqb k RULE_TXN_METHOD || field_eqb k RULE_MINUS_ACCOUNT
             = false -> truthy (getattr r k) = false).
  { intros k Hk. destruct (truthy (getattr r k)) eqn:E; [|reflexivity].
    rewrite (H1 k (in_get_fields k) E) in Hk. discriminate Hk. }
  unfold get_fields in H2. cbn [map getattr] in H2.
  rewrite !list_sum_cons in H2. change (list_sum []) with 0 in H2.
  pose proof (F RULE_PAYEE eq_refl) as F1.
  pose proof (F RULE_ITEM eq_refl) as F2.
  pose proof (F RULE_TXN_TYPE eq_refl) as F3.
  pose proof (F RULE_TXN_INOUT eq_refl) as F4.
  pose proof (F RULE_START_TIME eq_refl) as F5.
  pose proof (F RULE_END_TIME eq_refl) as F6.
  pose proof (F RULE_PLUS_ACCOUNT eq_refl) as F7.
  pose proof (F RULE_SEPERATOR eq_refl) as F8.
  pose proof (F RULE_TXN_STATUS eq_refl) as F9.
  pose proof (F RULE_TXN_META eq_refl) as F10.
  pose proof (F RULE_TXN_INPUT eq_refl) as F11.
  pose proof (F RULE_TXN_OUTPUT eq_refl) as F12.
  pose proof (F RULE_TXN_MASK eq_refl) as F13.
  pose proof (F RULE_TXN_EXCLUDE eq_refl) as F14.
  cbn [getattr] in F1, F2, F3, F4, F5, F6, F7, F8, F9, F10, F11, F12, F13,
    F14.
  rewrite F1, F2, F3, F4, F5, F6, F7, F8, F9, F10, F11, F12, F13, F14 in H2.
  destruct (truthy (txn_method r)), (truthy (method_account r));
    cbn in H2; try discriminate H2; auto.
Qed.

Lemma field_eqb_eq (k k' : field) : field_eqb k k' = true <-> k = k'.
Proof. destruct k, k'; split; intros H; try reflexivity; discriminate H. Qed.

Lemma field_eqb_refl (k : field) : field_eqb k k = true.
Proof. now apply field_eqb_eq. Qed.

(** ** The predicate of a rule *)

Section Predicate.

Variable meta : Meta.
Variable func_map : option resolver.

(** The mask state a scan computes does not depend on the one it starts
    from as soon as a candidate was found. *)
Lemma scan_values_rel ex v vals fc m1 m2 :
  (fc = true -> m1 = m2) ->
  fst (scan_values true ex v vals fc m1) =
  fst (scan_values true ex v vals fc m2) /\
  (fst (scan_values true ex v vals fc m1) = Ok true ->
   snd (scan_values true ex v vals fc m1) =
   snd (scan_values true ex v vals fc m2)).
Proof.
  revert fc m1 m2. induction vals as [|val rest IH]; intros fc m1 m2 Hinv.
  - simpl. split; [reflexivity|]. intros H. injection H as ->. now apply Hinv.
  - simpl. destruct v; try (now apply IH).
    destruct val; try (now apply IH).
    destruct (contains s0 s); [|now apply IH].
    destruct (truthy ex).
    + destruct ex; simpl; try (split; [reflexivity|discriminate]).
      now apply IH.
    + now apply IH.
Qed.

Lemma scan_meta_rel ex vals fc m1 m2 :
  (fc = true -> m1 = m2) ->
  fst (scan_meta true ex meta vals fc m1) =
  fst (scan_meta true ex meta vals fc m2) /\
  (fst (scan_meta true ex meta vals fc m1) = Ok true ->
   snd (scan_meta true ex meta vals fc m1) =
   snd (scan_meta true ex meta vals fc m2)).
Proof.
  revert fc m1 m2.
  induction meta as [|[key v] meta' IH]; intros fc m1 m2 Hinv.
  - simpl. split; [reflexivity|]. intros H. injection H as ->. now apply Hinv.
  - simpl. destruct (scan_values_rel ex v vals fc m1 m2 Hinv) as [E1 E2].
    destruct (scan_values true ex v vals fc m1) as [[fc1|e1] o1],
             (scan_values true ex v vals fc m2) as [[fc2|e2] o2];
      simpl in E1, E2; try discriminate E1.
    + injection E1 as <-. apply IH. intros ->. now apply E2.
    + injection E1 as <-. simpl. split; [reflexivity|discriminate].
Qed.

(** Scanning for [txn_meta] leaves the mask state alone. *)
Lemma scan_values_nomask ex v vals fc m :
  snd (scan_values false ex v vals fc m) = m.
Proof.
  revert fc. induction vals as [|val rest IH]; intros fc; simpl; auto.
  destruct v; auto. destruct val; auto. destruct (contains s0 s); auto.
Qed.

Lemma scan_values_nomask_fst ex v vals fc m1 m2 :
  fst (scan_values false ex v vals fc m1) =
  fst (scan_values false ex v vals fc m2).
Proof.
  revert fc. induction vals as [|val rest IH]; intros fc; simpl; auto.
  destruct v; auto. destruct val; auto. destruct (contains s0 s); auto.
Qed.

Lemma scan_meta_nomask ex vals fc m :
  snd (scan_meta false ex meta vals fc m) = m.
Proof.
  revert fc. induction meta as [|[key v] meta' IH]; intros fc; simpl; auto.
  pose proof (scan_values_nomask ex v vals fc m) as H.
  destruct (scan_values false ex v vals fc m) as [[fc1|e1] o1];
    simpl in H; subst; auto.
Qed.

Lemma scan_meta_nomask_fst ex vals fc m1 m2 :
  fst (scan_meta false ex meta vals fc m1) =
  fst (scan_meta false ex meta vals fc m2).
Proof.
  revert fc. induction meta as [|[key v] meta' IH]; intros fc; simpl; auto.
  pose proof (scan_values_nomask ex v vals fc m1) as H1.
  pose proof (scan_values_nomask ex v vals fc m2) as H2.
  pose proof (scan_values_nomask_fst ex v vals fc m1 m2) as H3.
  destruct (scan_values false ex v vals fc m1) as [[fc1|e1] o1],
           (scan_values false ex v vals fc m2) as [[fc2|e2] o2];
    simpl in *; subst; try discriminate H3.
  - injection H3 as ->. apply IH.
  - exact H3.
Qed.

Lemma candidates_same_fields r r' v :
  same_fields r r' -> candidates r' v = candidates r v.
Proof.
  intros H. unfold candidates.
  change (seperator r') with (getattr r' RULE_SEPERATOR).
  rewrite (same_fields_getattr _ _ _ H). reflexivity.
Qed.

(** [_match] assigns nothing but [is_mask]. *)
Lemma match_loop_frame ks r :
  same_fields r (snd (_match_loop ks r meta func_map)).
Proof.
  revert r. induction ks as [|k ks IH]; intros r; simpl.
  - apply same_fields_refl.
  - destruct (_ || _); [apply IH|].
    destruct (is_none (getattr r k)); [apply IH|].
    destruct (candidates r (getattr r k)) as [vals|e];
      [|apply same_fields_refl].
    destruct (_ || _).
    + destruct (scan_meta _ _ _ _ _ _) as [fc m].
      destruct fc as [[|]|e]; simpl; try apply same_fields_set.
      eapply same_fields_trans; [apply same_fields_set|apply IH].
    + destruct (equal_values _ _ _) as [[|]|e]; simpl;
        try apply same_fields_refl.
      apply IH.
Qed.

(** A rule without [txn_mask] keeps its [is_mask]. *)
Lemma match_loop_unmasked ks r :
  is_none (txn_mask r) = true ->
  snd (_match_loop ks r meta func_map) = r.
Proof.
  intros Hnone. induction ks as [|k ks IH]; simpl; [reflexivity|].
  destruct (_ || _); [apply IH|].
  destruct (is_none (getattr r k)) eqn:Hk; [apply IH|].
  destruct (candidates r (getattr r k)) as [vals|e]; [|reflexivity].
  destruct (_ || _).
  - destruct (field_eqb k RULE_TXN_MASK) eqn:Ek.
    + apply field_eqb_eq in Ek. subst k. simpl in Hk. congruence.
    + pose proof (scan_meta_nomask (getattr r RULE_TXN_EXCLUDE) vals false
                                   (is_mask r)) as Hs.
      destruct (scan_meta _ _ _ _ _ _) as [fc m]. simpl in Hs. subst m.
      rewrite set_is_mask_same.
      destruct fc as [[|]|e]; simpl; auto.
  - destruct (equal_values _ _ _) as [[|]|e]; simpl; auto.
Qed.

(** Whether a rule matches does not depend on the [is_mask] it carries, and
    when a rule with a [txn_mask] matches neither does the [is_mask] it is
    left with. *)
Lemma match_loop_rel ks r1 r2 :
  same_fields r1 r2 ->
  fst (_match_loop ks r1 meta func_map) =
  fst (_match_loop ks r2 meta func_map) /\
  (fst (_match_loop ks r1 meta func_map) = Ok true ->
   In RULE_TXN_MASK ks -> is_none (txn_mask r1) = false ->
   snd (_match_loop ks r1 meta func_map) =
   snd (_match_loop ks r2 meta func_map)).
Proof.
  revert r1 r2. induction ks as [|k ks IH]; intros r1 r2 Hsame.
  - simpl. split; [reflexivity|]. intros _ [].
  - assert (Hin : field_eqb k RULE_TXN_MASK = false ->
                  In RULE_TXN_MASK (k :: ks) -> In RULE_TXN_MASK ks).
    { intros Hk [->|H]; [|exact H]. now rewrite field_eqb_refl in Hk. }
    assert (Hex : txn_exclude r2 = txn_exclude r1)
      by apply (same_fields_getattr _ _ RULE_TXN_EXCLUDE Hsame).
    simpl _match_loop.
    rewrite !(same_fields_getattr _ _ _ Hsame), Hex.
    rewrite (candidates_same_fields _ _ _ Hsame).
    destruct (field_eqb k RULE_MINUS_ACCOUNT || field_eqb k RULE_PLUS_ACCOUNT
              || field_eqb k RULE_SEPERATOR || field_eqb k RULE_TXN_EXCLUDE)
      eqn:Hskip.
    { destruct (IH _ _ Hsame) as [E1 E2]. split; [exact E1|].
      intros H1 H2 H3. apply E2; auto. apply Hin; auto.
      destruct k; try reflexivity; discriminate Hskip. }
    destruct (is_none (getattr r1 k)) eqn:Hk.
    { destruct (IH _ _ Hsame) as [E1 E2]. split; [exact E1|].
      intros H1 H2 H3. apply E2; auto. apply Hin; auto.
      destruct (field_eqb k RULE_TXN_MASK) eqn:Ek; [|reflexivity].
      apply field_eqb_eq in Ek. subst k. simpl in Hk. congruence. }
    destruct (candidates r1 (getattr r1 k)) as [vals|e];
      [|split; [reflexivity|discriminate]].
    destruct (field_eqb k RULE_TXN_META || field_eqb k RULE_TXN_MASK)
      eqn:Hscan.
    + destruct (field_eqb k RULE_TXN_MASK) eqn:Ek.
      * destruct (scan_meta_rel (txn_exclude r1) vals false
                    (is_mask r1) (is_mask r2)) as [F1 F2];
          [discriminate|].
        destruct (scan_meta true _ meta vals false (is_mask r1))
          as [fc1 m1'].
        destruct (scan_meta true _ meta vals false (is_mask r2))
          as [fc2 m2'].
        simpl in F1, F2. subst fc2.
        destruct fc1 as [[|]|e]; simpl;
          try (split; [reflexivity|discriminate]).
        rewrite <- (F2 eq_refl).
        assert (E : set_is_mask r2 m1' = set_is_mask r1 m1').
        { rewrite (same_fields_inv _ _ Hsame). apply set_is_mask_twice. }
        rewrite E. split; auto.
      * pose proof (scan_meta_nomask (txn_exclude r1) vals false
                      (is_mask r1)) as S1.
        pose proof (scan_meta_nomask (txn_exclude r1) vals false
                      (is_mask r2)) as S2.
        pose proof (scan_meta_nomask_fst (txn_exclude r1) vals
                      false (is_mask r1) (is_mask r2)) as S3.
        destruct (scan_meta false _ meta vals false (is_mask r1))
          as [fc1 m1'].
        destruct (scan_meta false _ meta vals false (is_mask r2))
          as [fc2 m2'].
        simpl in S1, S2, S3. subst fc2 m1' m2'.
        rewrite !set_is_mask_same.
        destruct fc1 as [[|]|e]; simpl;
          try (split; [reflexivity|discriminate]).
        destruct (IH _ _ Hsame) as [E1 E2]. split; [exact E1|].
        intros H1 H2 H3. apply E2; auto.
    + destruct (equal_values _ _ _) as [[|]|e]; simpl;
        try (split; [reflexivity|discriminate]).
      destruct (IH _ _ Hsame) as [E1 E2]. split; [exact E1|].
      intros H1 H2 H3. apply E2; auto. apply Hin; auto.
      destruct k; try reflexivity; discriminate Hscan.
Qed.

End Predicate.

(** ** What a matching rule writes *)

Lemma copy_fields_all (rule ans : RuleMeta) :
  copy_fields get_fields rule ans =
  mkRuleMeta (payee rule) (item rule) (seperator rule) (txn_type rule)
             (txn_method rule) (txn_inout rule) (txn_status rule)
             (start_time rule) (end_time rule) (method_account ans)
             (target_account ans) (txn_meta rule) (txn_input rule)
             (txn_output rule) (is_mask ans) (txn_mask rule)
             (txn_exclude rule).
Proof. destruct rule, ans; reflexivity. Qed.

Lemma apply_rule_method_account (rule ans : RuleMeta) :
  method_account (apply_rule rule ans) =
  if truthy (method_account rule) then method_account rule
  else method_account ans.
Proof.
  unfold apply_rule. rewrite copy_fields_all. cbn [method_account getattr].
  destruct rule, ans; cbn.
  destruct (truthy method_account0), (truthy target_account0); reflexivity.
Qed.

Lemma apply_rule_target_account (rule ans : RuleMeta) :
  target_account (apply_rule rule ans) =
  if truthy (target_account rule) then target_account rule
  else target_account ans.
Proof.
  unfold apply_rule. rewrite copy_fields_all. cbn [target_account getattr].
  destruct rule, ans; cbn.
  destruct (truthy method_account0), (truthy target_account0); reflexivity.
Qed.

Lemma apply_rule_other (rule ans : RuleMeta) (k : field) :
  is_account k = false ->
  getattr (apply_rule rule ans) k = getattr rule k.
Proof.
  unfold apply_rule. rewrite copy_fields_all.
  destruct k; intros H; try discriminate H; reflexivity.
Qed.

Lemma apply_rule_is_mask (rule ans : RuleMeta) :
  is_mask (apply_rule rule ans) = is_mask ans.
Proof.
  unfold apply_rule. rewrite copy_fields_all. cbn [is_mask].
  destruct (truthy _), (truthy _); now rewrite ?is_mask_setattr.
Qed.

Lemma apply_rule_same_fields (rule rule' ans : RuleMeta) :
  same_fields rule rule' -> apply_rule rule' ans = apply_rule rule ans.
Proof.
  intros H. rewrite (same_fields_inv _ _ H).
  destruct rule, ans; reflexivity.
Qed.

Lemma assert_accounts_ok (ans : RuleMeta) :
  accounts_set ans -> assert_accounts ans = Ok ans.
Proof. intros [H1 H2]. unfold assert_accounts. now rewrite H1, H2. Qed.

Lemma assert_accounts_inv (ans ans' : RuleMeta) :
  assert_accounts ans = Ok ans' -> ans' = ans /\ accounts_set ans.
Proof.
  unfold assert_accounts, accounts_set.
  destruct (truthy (method_account ans)), (truthy (target_account ans));
    intros H; try discriminate H.
  injection H as <-. auto.
Qed.

Lemma accounts_set_is_mask (ans : RuleMeta) (m : option bool) :
  accounts_set ans -> accounts_set (set_is_mask ans m).
Proof. destruct ans; exact (fun H => H). Qed.

Lemma accounts_set_apply_rule (rule ans : RuleMeta) :
  accounts_set ans -> accounts_set (apply_rule rule ans).
Proof.
  intros [H1 H2]. unfold accounts_set.
  rewrite apply_rule_method_account, apply_rule_target_account.
  destruct (truthy (method_account rule)) eqn:E1,
           (truthy (target_account rule)) eqn:E2; auto.
Qed.

(** ** The first loop *)

Section Pass1.

Variable meta : Meta.
Variable func_map : option resolver.

Lemma method_test_value (x : option value) (rule : RuleMeta) :
  method_value meta func_map = Ok x ->
  method_test rule meta func_map =
  Ok (match x with Some v => py_eq (txn_method rule) v | None => false end).
Proof.
  unfold method_value, method_test.
  destruct (resolved func_map (field_name RULE_TXN_METHOD)) as [s|].
  - unfold subscript. destruct (dict_get meta s); simpl; [|discriminate].
    now intros [= <-].
  - now intros [= <-].
Qed.

Lemma setattr_method_account_same (ans : RuleMeta) :
  setattr ans RULE_MINUS_ACCOUNT (method_account ans) = ans.
Proof. destruct ans; reflexivity. Qed.

Lemma setattr_method_account_twice (ans : RuleMeta) (v w : value) :
  setattr (setattr ans RULE_MINUS_ACCOUNT v) RULE_MINUS_ACCOUNT w =
  setattr ans RULE_MINUS_ACCOUNT w.
Proof. destruct ans; reflexivity. Qed.

Lemma method_account_setattr (ans : RuleMeta) (v : value) :
  method_account (setattr ans RULE_MINUS_ACCOUNT v) = v.
Proof. destruct ans; reflexivity. Qed.

Lemma pass1_cons (rule : RuleMeta) (rest : list RuleMeta) (ans : RuleMeta) :
  pass1 (rule :: rest) meta func_map ans =
  if negb (check rule) then Raise AssertionError
  else if is_txn_method rule then
    hit <- method_test rule meta func_map ;;
    pass1 rest meta func_map
          (if hit
           then setattr ans RULE_MINUS_ACCOUNT
                        (getattr rule RULE_MINUS_ACCOUNT)
           else ans)
  else pass1 rest meta func_map ans.
Proof. reflexivity. Qed.

Lemma last_method_account_cons x rule rest acc :
  last_method_account x (rule :: rest) acc =
  last_method_account x rest
    (if method_hit x rule then method_account rule else acc).
Proof. reflexivity. Qed.

Lemma pass1_value (x : option value) (rs : list RuleMeta) (ans : RuleMeta) :
  method_value meta func_map = Ok x ->
  Forall (fun r => check r = true) rs ->
  pass1 rs meta func_map ans =
  Ok (setattr ans RULE_MINUS_ACCOUNT
              (last_method_account x rs (method_account ans))).
Proof.
  intros Hx. revert ans. induction rs as [|rule rest IH]; intros ans Hc.
  - cbn [pass1 last_method_account].
    now rewrite setattr_method_account_same.
  - inversion Hc as [|r0 l0 Hc1 Hc2]; subst.
    rewrite pass1_cons, Hc1, last_method_account_cons. cbn [negb].
    unfold method_hit.
    rewrite (method_test_value x rule Hx).
    destruct (is_txn_method rule); cbn [andb bind].
    + destruct (match x with Some v => _ | None => false end).
      * rewrite IH by assumption.
        rewrite setattr_method_account_twice.
        change (getattr rule RULE_MINUS_ACCOUNT) with (method_account rule).
        now rewrite method_account_setattr.
      * now apply IH.
    + now apply IH.
Qed.

(** A rule list on which the first loop does not raise passed [check]. *)
Lemma pass1_checked (rs : list RuleMeta) (ans ans' : RuleMeta) :
  pass1 rs meta func_map ans = Ok ans' ->
  Forall (fun r => check r = true) rs.
Proof.
  revert ans. induction rs as [|rule rest IH]; intros ans; [constructor|].
  rewrite pass1_cons.
  destruct (check rule) eqn:Hc; cbn [negb]; [|discriminate].
  intros H. constructor; [exact Hc|]. revert H.
  destruct (is_txn_method rule).
  - destruct (method_test rule meta func_map); cbn [bind]; [|discriminate].
    apply IH.
  - apply IH.
Qed.

(** Only the method rules count in the first loop. *)
Lemma pass1_filter (rs : list RuleMeta) (ans : RuleMeta) :
  Forall (fun r => check r = true) rs ->
  pass1 rs meta func_map ans =
  pass1 (filter is_txn_method rs) meta func_map ans.
Proof.
  revert ans. induction rs as [|rule rest IH]; intros ans Hc; auto.
  inversion Hc as [|r0 l0 Hc1 Hc2]; subst.
  rewrite pass1_cons, Hc1. cbn [negb filter].
  destruct (is_txn_method rule) eqn:E.
  - rewrite pass1_cons, Hc1, E. cbn [negb].
    destruct (method_test rule meta func_map); cbn [bind]; auto.
  - now apply IH.
Qed.

(** The first loop writes [method_account] and nothing else, and leaves
    it set. *)
Lemma pass1_frame (rs : list RuleMeta) (ans ans' : RuleMeta) :
  pass1 rs meta func_map ans = Ok ans' ->
  ans' = setattr ans RULE_MINUS_ACCOUNT (method_account ans') /\
  (accounts_set ans -> accounts_set ans').
Proof.
  revert ans. induction rs as [|rule rest IH]; intros ans.
  - cbn [pass1]. intros [= <-]. now rewrite setattr_method_account_same.
  - rewrite pass1_cons.
    destruct (check rule); cbn [negb]; [|discriminate].
    destruct (is_txn_method rule) eqn:E; [|apply IH].
    destruct (method_test rule meta func_map) as [[|]|e]; cbn [bind];
      try discriminate; [|apply IH].
    intros H. apply IH in H as [H1 H2]. split.
    + rewrite H1 at 1. apply setattr_method_account_twice.
    + intros [A1 A2]. apply H2. split.
      * change (getattr rule RULE_MINUS_ACCOUNT) with (method_account rule).
        rewrite method_account_setattr.
        now apply is_txn_method_accounts.
      * destruct ans; exact A2.
Qed.

End Pass1.

(** ** The second loop *)

Section Pass2.

Variable meta : Meta.
Variable func_map : option resolver.

Lemma match_frame (r : RuleMeta) :
  same_fields r (snd (_match r meta func_map)).
Proof. exact (match_loop_frame meta func_map get_fields r). Qed.

Lemma match_unmasked (r : RuleMeta) :
  is_none (txn_mask r) = true -> snd (_match r meta func_map) = r.
Proof. exact (match_loop_unmasked meta func_map get_fields r). Qed.

Lemma in_get_fields_mask : In RULE_TXN_MASK get_fields.
Proof. unfold get_fields. cbn [In]. tauto. Qed.

Lemma match_rel_masked (r1 r2 : RuleMeta) :
  same_fields r1 r2 ->
  fst (_match r1 meta func_map) = fst (_match r2 meta func_map) /\
  (fst (_match r1 meta func_map) = Ok true ->
   is_none (txn_mask r1) = false ->
   snd (_match r1 meta func_map) = snd (_match r2 meta func_map)).
Proof.
  intros Hsame.
  destruct (match_loop_rel meta func_map get_fields r1 r2 Hsame) as [E1 E2].
  unfold _match. split; [exact E1|]. intros Hok Hn.
  exact (E2 Hok in_get_fields_mask Hn).
Qed.

Lemma match_mask_wf (r : RuleMeta) :
  mask_wf r -> mask_wf (snd (_match r meta func_map)).
Proof.
  unfold mask_wf. intros Hwf Hnone.
  rewrite (same_fields_txn_mask _ _ (match_frame r)) in Hnone.
  rewrite match_unmasked by assumption. auto.
Qed.

Lemma match_rel (r1 r2 : RuleMeta) :
  same_fields r1 r2 -> mask_wf r1 -> mask_wf r2 ->
  fst (_match r1 meta func_map) = fst (_match r2 meta func_map) /\
  (fst (_match r1 meta func_map) = Ok true ->
   is_mask (snd (_match r1 meta func_map)) =
   is_mask (snd (_match r2 meta func_map))).
Proof.
  intros Hsame W1 W2.
  destruct (match_rel_masked r1 r2 Hsame) as [E1 E2].
  split; [exact E1|]. intros Hok.
  destruct (is_none (txn_mask r1)) eqn:Hnone.
  - pose proof (same_fields_txn_mask _ _ Hsame) as E.
    rewrite !match_unmasked by congruence.
    rewrite W1, W2; congruence.
  - now rewrite E2.
Qed.

Lemma match_fst_same_fields (r1 r2 : RuleMeta) :
  same_fields r1 r2 ->
  fst (_match r1 meta func_map) = fst (_match r2 meta func_map).
Proof. intros H. exact (proj1 (match_rel_masked r1 r2 H)). Qed.

Lemma pass2_cons (rule : RuleMeta) (rest : list RuleMeta) (ans : RuleMeta) :
  pass2 (rule :: rest) meta func_map ans =
  if is_txn_method rule then
    let '(o, rest') := pass2 rest meta func_map ans in
    (o, rule :: rest')
  else if negb (check rule) then (Raised AssertionError, rule :: rest)
  else
    let '(m, rule') := _match rule meta func_map in
    match m with
    | Raise e => (Raised e, rule' :: rest)
    | Ok false =>
        let '(o, rest') := pass2 rest meta func_map ans in
        (o, rule' :: rest')
    | Ok true =>
        let ans1 := set_is_mask ans (is_mask rule') in
        if mask_set (is_mask ans1) then (Stop ans1, rule' :: rest)
        else
          let '(o, rest') :=
            pass2 rest meta func_map (apply_rule rule' ans1) in
          (o, rule' :: rest')
    end.
Proof. reflexivity. Qed.

Lemma pass2_fst_cons (rule : RuleMeta) (rest : list RuleMeta)
    (ans : RuleMeta) :
  fst (pass2 (rule :: rest) meta func_map ans) =
  pass2_step meta func_map rule rest ans.
Proof.
  rewrite pass2_cons. unfold pass2_step.
  destruct (is_txn_method rule).
  - now destruct (pass2 rest meta func_map ans).
  - destruct (check rule); cbn [negb]; [|reflexivity].
    destruct (_match rule meta func_map) as [[[|]|e] rule']; cbn [fst snd];
      try reflexivity.
    + rewrite is_mask_set_is_mask.
      destruct (mask_set (is_mask rule')); [reflexivity|].
      now destruct (pass2 rest meta func_map _).
    + now destruct (pass2 rest meta func_map ans).
Qed.

Lemma pass2_frame (rs : list RuleMeta) (ans : RuleMeta) :
  Forall2 same_fields rs (snd (pass2 rs meta func_map ans)) /\
  (Forall mask_wf rs -> Forall mask_wf (snd (pass2 rs meta func_map ans))).
Proof.
  revert ans. induction rs as [|rule rest IH]; intros ans.
  - cbn [pass2 snd]. split; auto.
  - assert (Hrefl : Forall2 same_fields rest rest).
    { clear. induction rest; constructor; auto using same_fields_refl. }
    rewrite pass2_cons.
    pose proof (match_frame rule) as Hf.
    pose proof (match_mask_wf rule) as Hw.
    destruct (is_txn_method rule).
    + specialize (IH ans). destruct (pass2 rest meta func_map ans) as [o rs'].
      cbn [snd] in *. destruct IH as [I1 I2]. split.
      * constructor; auto using same_fields_refl.
      * intros H. inversion H; subst. constructor; auto.
    + destruct (check rule); cbn [negb].
      2:{ cbn [snd]. split; [|auto].
          constructor; auto using same_fields_refl. }
      destruct (_match rule meta func_map) as [[[|]|e] rule'];
        cbn [fst snd] in *.
      * rewrite is_mask_set_is_mask.
        destruct (mask_set (is_mask rule')).
        -- cbn [snd]. split; [constructor; auto|].
           intros H. inversion H; subst. constructor; auto.
        -- specialize (IH (apply_rule rule'
                                      (set_is_mask ans (is_mask rule')))).
           destruct (pass2 rest meta func_map _) as [o rs'].
           cbn [snd] in *. destruct IH as [I1 I2]. split.
           ++ constructor; auto.
           ++ intros H. inversion H; subst. constructor; auto.
      * specialize (IH ans). destruct (pass2 rest meta func_map ans) as [o rs'].
        cbn [snd] in *. destruct IH as [I1 I2]. split.
        -- constructor; auto.
        -- intros H. inversion H; subst. constructor; auto.
      * cbn [snd]. split; [constructor; auto|].
        intros H. inversion H; subst. constructor; auto.
Qed.

Lemma pass2_app_next (pre post : list RuleMeta) (a a' : RuleMeta) :
  fst (pass2 pre meta func_map a) = Next a' ->
  fst (pass2 (pre ++ post) meta func_map a) =
  fst (pass2 post meta func_map a').
Proof.
  revert a. induction pre as [|r pre IH]; intros a.
  - cbn [pass2 fst app]. now intros [= <-].
  - rewrite <- app_comm_cons, !pass2_fst_cons. unfold pass2_step.
    destruct (is_txn_method r); [apply IH|].
    destruct (check r); cbn [negb]; [|discriminate].
    destruct (fst (_match r meta func_map)) as [[|]|e];
      try discriminate; [|apply IH].
    destruct (mask_set _); [discriminate|apply IH].
Qed.

(** The second loop passes over the method rules. *)
Lemma pass2_filter (rs : list RuleMeta) (a : RuleMeta) :
  fst (pass2 rs meta func_map a) =
  fst (pass2 (filter (fun r => negb (is_txn_method r)) rs) meta func_map a).
Proof.
  revert a. induction rs as [|r rs IH]; intros a; [reflexivity|].
  cbn [filter]. rewrite pass2_fst_cons. unfold pass2_step at 1.
  destruct (is_txn_method r) eqn:E; cbn [negb]; [apply IH|].
  rewrite pass2_fst_cons. unfold pass2_step. rewrite E.
  destruct (check r); cbn [negb]; [|reflexivity].
  destruct (fst (_match r meta func_map)) as [[|]|e]; auto.
  destruct (mask_set _); auto.
Qed.

(** The second loop keeps both accounts set. *)
Lemma pass2_accounts (rs : list RuleMeta) (a : RuleMeta) :
  accounts_set a ->
  match fst (pass2 rs meta func_map a) with
  | Next a' | Stop a' => accounts_set a'
  | Raised _ => True
  end.
Proof.
  revert a. induction rs as [|r rs IH]; intros a Ha; [exact Ha|].
  rewrite pass2_fst_cons. unfold pass2_step.
  destruct (is_txn_method r); [now apply IH|].
  destruct (check r); cbn [negb]; [|exact I].
  destruct (fst (_match r meta func_map)) as [[|]|e];
    [|now apply IH|exact I].
  destruct (mask_set _).
  - now apply accounts_set_is_mask.
  - apply IH. now apply accounts_set_apply_rule, accounts_set_is_mask.
Qed.

(** Rules that do not match leave the result as it is. *)
Lemma pass2_nomatch (rs : list RuleMeta) (a : RuleMeta) :
  Forall (fun r => is_txn_method r = false ->
                   check r = true /\
                   fst (_match r meta func_map) = Ok false) rs ->
  fst (pass2 rs meta func_map a) = Next a.
Proof.
  induction 1 as [|r rs Hr Hrs IH]; [reflexivity|].
  rewrite pass2_fst_cons. unfold pass2_step.
  destruct (is_txn_method r); [exact IH|].
  destruct (Hr eq_refl) as [-> ->]. exact IH.
Qed.

(** The result of the second loop does not depend on the [is_mask] the
    rules carry when it starts. *)
Lemma pass2_rel (rs1 rs2 : list RuleMeta) (a : RuleMeta) :
  Forall2 same_fields rs1 rs2 ->
  Forall mask_wf rs1 -> Forall mask_wf rs2 ->
  fst (pass2 rs1 meta func_map a) = fst (pass2 rs2 meta func_map a).
Proof.
  intros H. revert a.
  induction H as [|r1 r2 rs1 rs2 Hr Hrs IH]; intros a W1 W2; [reflexivity|].
  inversion W1 as [|? ? Wr1 Wrs1]; inversion W2 as [|? ? Wr2 Wrs2]; subst.
  rewrite !pass2_fst_cons. unfold pass2_step.
  rewrite (is_txn_method_same_fields _ _ Hr), (check_same_fields _ _ Hr).
  destruct (is_txn_method r1); [now apply IH|].
  destruct (check r1); cbn [negb]; [|reflexivity].
  destruct (match_rel r1 r2 Hr Wr1 Wr2) as [E1 E2].
  rewrite <- E1.
  destruct (fst (_match r1 meta func_map)) as [[|]|e];
    [|now apply IH|reflexivity].
  rewrite <- (E2 eq_refl).
  destruct (mask_set _); [reflexivity|].
  rewrite (apply_rule_same_fields (snd (_match r1 meta func_map))
                                  (snd (_match r2 meta func_map))).
  - now apply IH.
  - eapply same_fields_trans; [apply same_fields_sym, match_frame|].
    eapply same_fields_trans; [exact Hr|apply match_frame].
Qed.

End Pass2.

(** ** [match] as a whole *)

Section Match.

Variable meta : Meta.
Variable func_map : option resolver.

Lemma initial_ans_accounts (cfg : value) (a0 : RuleMeta) :
  initial_ans cfg = Ok a0 -> accounts_set a0.
Proof.
  unfold initial_ans.
  destruct (py_getitem cfg _DEFAULT_MINUS) as [dm|]; [|discriminate].
  destruct (py_getitem cfg _DEFAULT_PLUS) as [dp|]; [|discriminate].
  cbn [bind]. intros H. apply assert_accounts_inv in H as [-> H]. exact H.
Qed.

Lemma initial_ans_value (cfg dm dp : value) :
  py_getitem cfg _DEFAULT_MINUS = Ok dm ->
  py_getitem cfg _DEFAULT_PLUS = Ok dp ->
  truthy dm = true -> truthy dp = true ->
  initial_ans cfg =
  Ok (setattr (setattr RuleMeta_init RULE_MINUS_ACCOUNT dm)
              RULE_PLUS_ACCOUNT dp).
Proof.
  intros H1 H2 T1 T2. unfold initial_ans. rewrite H1, H2. cbn [bind].
  apply assert_accounts_ok. split; assumption.
Qed.

Lemma match_fst (self : Ruler) (a0 a1 : RuleMeta) :
  initial_ans (config self) = Ok a0 ->
  pass1 (rules self) meta (default_resolver func_map) a0 = Ok a1 ->
  fst (match_ self meta func_map) =
  outcome_result
    (fst (pass2 (rules self) meta (default_resolver func_map) a1)).
Proof.
  intros H0 H1. unfold match_. rewrite H0. cbn [bind]. rewrite H1.
  cbn [bind].
  assert (Ha1 : accounts_set a1).
  { apply (pass1_frame _ _ _ _ _ H1), (initial_ans_accounts _ _ H0). }
  rewrite (assert_accounts_ok _ Ha1).
  pose proof (pass2_accounts meta (default_resolver func_map) (rules self)
                             a1 Ha1) as Hacc.
  destruct (pass2 (rules self) meta (default_resolver func_map) a1)
    as [o rs'].
  cbn [fst] in *. destruct o; cbn [fst outcome_result];
    try reflexivity; now apply assert_accounts_ok.
Qed.

(** [match] raises what the first part raises, and leaves the engine as it
    is. *)
Lemma match_early_raise (self : Ruler) (e : exn) :
  (ans <- initial_ans (config self) ;;
   ans1 <- pass1 (rules self) meta (default_resolver func_map) ans ;;
   assert_accounts ans1) = Raise e ->
  match_ self meta func_map = (Raise e, self).
Proof. intros H. unfold match_. now rewrite H. Qed.

(** [match] assigns nothing but the [is_mask] of the rules. *)
Lemma match_frame_rules (self : Ruler) :
  config (snd (match_ self meta func_map)) = config self /\
  Forall2 same_fields (rules self) (rules (snd (match_ self meta func_map)))
  /\ (Forall mask_wf (rules self) ->
      Forall mask_wf (rules (snd (match_ self meta func_map)))).
Proof.
  assert (Hrefl : forall l, Forall2 same_fields l l).
  { induction l; constructor; auto using same_fields_refl. }
  unfold match_.
  destruct (ans <- initial_ans (config self) ;;
            ans1 <- pass1 (rules self) meta (default_resolver func_map) ans ;;
            assert_accounts ans1) as [a1|e].
  - pose proof (pass2_frame meta (default_resolver func_map) (rules self) a1)
      as [F1 F2].
    destruct (pass2 (rules self) meta (default_resolver func_map) a1)
      as [o rs'].
    cbn [snd] in F1, F2. destruct o; cbn [snd config rules]; auto.
  - cbn [snd]. auto.
Qed.

End Match.

(** ** The method pass *)

Lemma last_method_account_nohit x rs acc :
  Forall (fun r => method_hit x r = false) rs ->
  last_method_account x rs acc = acc.
Proof.
  induction 1 as [|r rs Hr Hrs IH]; [reflexivity|].
  rewrite last_method_account_cons, Hr. exact IH.
Qed.

Lemma last_method_account_app x pre r post acc :
  method_hit x r = true ->
  Forall (fun r' => method_hit x r' = false) post ->
  last_method_account x (pre ++ r :: post) acc = method_account r.
Proof.
  intros Hr Hpost. revert acc.
  induction pre as [|p pre IH]; intros acc.
  - cbn [app]. rewrite last_method_account_cons, Hr.
    now apply last_method_account_nohit.
  - rewrite <- app_comm_cons, last_method_account_cons. apply IH.
Qed.

(** C4: the first loop of [match] acts on the rules for which
    [is_txn_method] holds and on no other; it ends with the
    [method_account] of the last of them in list order whose [txn_method]
    equals the record's value under the resolved [txn_method] key and
    changes no other attribute of the result; and the second loop passes
    over these rules. *)
Theorem pass1_last_method_rule_wins
    (meta : Meta) (func_map : option resolver) (x : option value)
    (rs : list RuleMeta) (ans : RuleMeta) :
  method_value meta func_map = Ok x ->
  Forall (fun r => check r = true) rs ->
  exists ans',
    pass1 rs meta func_map ans = Ok ans' /\
    pass1 (filter is_txn_method rs) meta func_map ans = Ok ans' /\
    ans' = setattr ans RULE_MINUS_ACCOUNT (method_account ans') /\
    (forall pre r post,
        rs = (pre ++ r :: post)%list ->
        method_hit x r = true ->
        Forall (fun r' => method_hit x r' = false) post ->
        method_account ans' = method_account r) /\
    (Forall (fun r => method_hit x r = false) rs -> ans' = ans) /\
    (forall a,
        fst (pass2 rs meta func_map a) =
        fst (pass2 (filter (fun r => negb (is_txn_method r)) rs)
                   meta func_map a)).
Proof.
  intros Hx Hc.
  pose proof (pass1_value meta func_map x rs ans Hx Hc) as H.
  exists (setattr ans RULE_MINUS_ACCOUNT
                  (last_method_account x rs (method_account ans))).
  split; [exact H|]. split; [now rewrite <- pass1_filter|].
  rewrite method_account_setattr.
  split; [reflexivity|].
  split; [|split].
  - intros pre r post -> Hr Hpost. now apply last_method_account_app.
  - intros Hno. rewrite last_method_account_nohit by assumption.
    apply setattr_method_account_same.
  - intros a. apply pass2_filter.
Qed.

Lemma pass1_last_method_rule_wins_witness :
  method_value [("txn_method", VStr "wechat")] (Some identity)
  = Ok (Some (VStr "wechat")) /\
  Forall (fun r => check r = true) [wechat_rule; jim_rule; wechat_rule2] /\
  exists ans',
    pass1 [wechat_rule; jim_rule; wechat_rule2]
          [("txn_method", VStr "wechat")] (Some identity) fixme_ans
    = Ok ans' /\
    method_account ans' = VStr "Assets:Wechat:Cash".
Proof.
  split; [reflexivity|]. split; [repeat constructor|].
  destruct (pass1_last_method_rule_wins
              [("txn_method", VStr "wechat")] (Some identity)
              (Some (VStr "wechat")) [wechat_rule; jim_rule; wechat_rule2]
              fixme_ans eq_refl)
    as [ans' [H1 [_ [_ [H4 _]]]]]; [repeat constructor|].
  exists ans'. split; [exact H1|].
  apply (H4 [wechat_rule; jim_rule] wechat_rule2 []);
    [reflexivity|reflexivity|constructor].
Defined.

(** ** No rule matches *)

Lemma pass1_nohit (meta : Meta) (func_map : option resolver)
    (rs : list RuleMeta) (a : RuleMeta) :
  Forall (fun r => check r = true /\
                   (is_txn_method r = true ->
                    method_test r meta func_map = Ok false)) rs ->
  pass1 rs meta func_map a = Ok a.
Proof.
  induction 1 as [|r rs [Hc Hm] Hrs IH]; [reflexivity|].
  rewrite pass1_cons, Hc. cbn [negb].
  destruct (is_txn_method r); [|exact IH].
  rewrite (Hm eq_refl). exact IH.
Qed.

(** C6: when no method rule's [txn_method] equals the record's and the
    predicate of no other rule succeeds, [match] returns a result whose
    [method_account] and [target_account] are the two configured defaults
    and whose [is_mask] is unset, hence false as a condition; every other
    attribute is [None] as [RuleMeta()] leaves it. *)
Theorem match_defaults_when_no_rule_matches
    (self : Ruler) (meta : Meta) (func_map : option resolver)
    (dm dp : value) :
  py_getitem (config self) _DEFAULT_MINUS = Ok dm ->
  py_getitem (config self) _DEFAULT_PLUS = Ok dp ->
  truthy dm = true -> truthy dp = true ->
  Forall (fun r =>
            check r = true /\
            if is_txn_method r
            then method_test r meta (default_resolver func_map) = Ok false
            else fst (_match r meta (default_resolver func_map)) = Ok false)
         (rules self) ->
  exists ans,
    fst (match_ self meta func_map) = Ok ans /\
    method_account ans = dm /\ target_account ans = dp /\
    is_mask ans = None /\ mask_set (is_mask ans) = false /\
    ans = setattr (setattr RuleMeta_init RULE_MINUS_ACCOUNT dm)
                  RULE_PLUS_ACCOUNT dp.
Proof.
  intros Hm Hp Tm Tp Hrules.
  set (a0 := setattr (setattr RuleMeta_init RULE_MINUS_ACCOUNT dm)
                     RULE_PLUS_ACCOUNT dp).
  assert (H0 : initial_ans (config self) = Ok a0)
    by now apply initial_ans_value.
  assert (H1 : pass1 (rules self) meta (default_resolver func_map) a0
               = Ok a0).
  { apply pass1_nohit. eapply Forall_impl; [|exact Hrules].
    intros r [Hc Hr]. split; [exact Hc|]. intros E. now rewrite E in Hr. }
  assert (H2 : fst (pass2 (rules self) meta (default_resolver func_map) a0)
               = Next a0).
  { apply pass2_nomatch. eapply Forall_impl; [|exact Hrules].
    intros r [Hc Hr] E. rewrite E in Hr. now split. }
  exists a0. rewrite (match_fst meta func_map self a0 a0 H0 H1), H2.
  repeat split; reflexivity.
Qed.

Lemma match_defaults_when_no_rule_matches_witness :
  exists ans,
    fst (match_ test_ruler [("payee", VStr "bob")] None) = Ok ans /\
    method_account ans = VStr "Assets:FIXME" /\
    target_account ans = VStr "Expenses:FIXME" /\
    is_mask ans = None.
Proof.
  destruct (match_defaults_when_no_rule_matches
              test_ruler [("payee", VStr "bob")] None
              (VStr "Assets:FIXME") (VStr "Expenses:FIXME")
              eq_refl eq_refl eq_refl eq_refl)
    as [ans [H1 [H2 [H3 [H4 _]]]]].
  - repeat (constructor; [split; reflexivity|]). constructor.
  - exists ans. auto.
Defined.

(** ** A rule that masks *)

Lemma mask_set_true (m : option bool) : mask_set m = true -> m = Some true.
Proof. destruct m as [[|]|]; cbn; congruence. Qed.

(** The result of [match] when the second loop reaches, with the result
    [a2], a rule that matches and masks. *)
Lemma match_reaches_mask (cfg : value) (pre post : list RuleMeta)
    (r : RuleMeta) (meta : Meta) (func_map : option resolver)
    (a0 a1 a2 : RuleMeta) :
  initial_ans cfg = Ok a0 ->
  pass1 (pre ++ r :: post) meta (default_resolver func_map) a0 = Ok a1 ->
  fst (pass2 pre meta (default_resolver func_map) a1) = Next a2 ->
  is_txn_method r = false ->
  fst (_match r meta (default_resolver func_map)) = Ok true ->
  mask_set (is_mask (snd (_match r meta (default_resolver func_map))))
  = true ->
  fst (match_ (mkRuler cfg (pre ++ r :: post)) meta func_map) =
  Ok (set_is_mask a2 (Some true)).
Proof.
  intros H0 H1 H2 Hm Hok Hmask.
  rewrite (match_fst meta func_map (mkRuler cfg (pre ++ r :: post)) a0 a1
                     H0 H1).
  cbn [rules]. rewrite (pass2_app_next _ _ _ _ _ _ H2), pass2_fst_cons.
  unfold pass2_step. rewrite Hm.
  pose proof (pass1_checked _ _ _ _ _ H1) as Hc.
  apply Forall_app in Hc as [_ Hc]. inversion Hc as [|? ? Hcr _]; subst.
  rewrite Hcr, Hok. cbn [negb]. rewrite Hmask.
  now rewrite (mask_set_true _ Hmask).
Qed.

Lemma filter_rules_app (f : RuleMeta -> bool) (pre post : list RuleMeta)
    (r : RuleMeta) :
  filter f (pre ++ r :: post) =
  (filter f pre ++ filter f [r] ++ filter f post)%list.
Proof.
  rewrite filter_app. change (r :: post) with ([r] ++ post)%list.
  now rewrite filter_app.
Qed.

Lemma pass2_method_rules (meta : Meta) (func_map : option resolver)
    (rs : list RuleMeta) (a : RuleMeta) :
  fst (pass2 (filter is_txn_method rs) meta func_map a) = Next a.
Proof.
  apply pass2_nomatch. apply Forall_forall. intros r Hr.
  apply filter_In in Hr as [_ Hr]. congruence.
Qed.

(** C2, as stated, fails: after a rule that masks, a method rule later in
    the list still sets the [method_account] of the result, in the first
    loop. *)
Lemma mask_then_method_rule_counterexample :
  is_txn_method foo_rule = false /\
  fst (_match foo_rule wechat_foobaz (Some identity)) = Ok true /\
  is_mask (snd (_match foo_rule wechat_foobaz (Some identity))) = Some true
  /\
  fst (match_ (mkRuler fixme_cfg [foo_rule; wechat_rule]) wechat_foobaz None)
  <> fst (match_ (mkRuler fixme_cfg [foo_rule]) wechat_foobaz None).
Proof.
  repeat split; try reflexivity.
  intros H. vm_compute in H. discriminate H.
Qed.

(** C2 (amended): when the second loop reaches a rule whose predicate
    succeeds and whose mask state is true, [match] returns the result
    accumulated so far with [is_mask] true, whatever the rules after it
    that are not method rules: two rule lists that differ only in such
    later rules give the same result.  (The method rules after it have
    acted in the first loop.) *)
Theorem mask_stops_later_rules
    (cfg : value) (pre post post' : list RuleMeta) (r : RuleMeta)
    (meta : Meta) (func_map : option resolver) (a0 a1 a2 : RuleMeta) :
  initial_ans cfg = Ok a0 ->
  pass1 (pre ++ r :: post) meta (default_resolver func_map) a0 = Ok a1 ->
  fst (pass2 pre meta (default_resolver func_map) a1) = Next a2 ->
  is_txn_method r = false ->
  fst (_match r meta (default_resolver func_map)) = Ok true ->
  mask_set (is_mask (snd (_match r meta (default_resolver func_map))))
  = true ->
  filter is_txn_method post' = filter is_txn_method post ->
  Forall (fun r' => check r' = true) post' ->
  fst (match_ (mkRuler cfg (pre ++ r :: post)) meta func_map) =
  Ok (set_is_mask a2 (Some true)) /\
  fst (match_ (mkRuler cfg (pre ++ r :: post')) meta func_map) =
  Ok (set_is_mask a2 (Some true)).
Proof.
  intros H0 H1 H2 Hm Hok Hmask Hfilter Hc'.
  split; [eapply match_reaches_mask; eassumption|].
  apply (match_reaches_mask cfg pre post' r meta func_map a0 a1);
    try assumption.
  pose proof (pass1_checked _ _ _ _ _ H1) as Hc.
  apply Forall_app in Hc as [Hc1 Hc2].
  inversion Hc2 as [|? ? Hcr Hcp]; subst.
  assert (F1 : Forall (fun r => check r = true) (pre ++ r :: post)).
  { apply Forall_app. split; [exact Hc1|]. constructor; assumption. }
  assert (F2 : Forall (fun r => check r = true) (pre ++ r :: post')).
  { apply Forall_app. split; [exact Hc1|]. constructor; assumption. }
  rewrite pass1_filter in H1 by exact F1.
  rewrite pass1_filter by exact F2.
  rewrite filter_rules_app in H1 |- *. now rewrite Hfilter.
Qed.

Lemma mask_stops_later_rules_witness :
  fst (match_ (mkRuler fixme_cfg [mike_rule; foo_rule; jim_rule])
              [("payee", VStr "jim"); ("memo", VStr "foobaz")] None) =
  Ok (set_is_mask fixme_ans (Some true)) /\
  fst (match_ (mkRuler fixme_cfg [mike_rule; foo_rule])
              [("payee", VStr "jim"); ("memo", VStr "foobaz")] None) =
  Ok (set_is_mask fixme_ans (Some true)).
Proof.
  apply (mask_stops_later_rules
           fixme_cfg [mike_rule] [jim_rule] [] foo_rule
           [("payee", VStr "jim"); ("memo", VStr "foobaz")] None
           fixme_ans fixme_ans fixme_ans);
    try reflexivity.
  constructor.
Defined.

(** C10, as stated, fails for [method_account]: with a method rule after
    the rule that masks, the result carries that later rule's
    [method_account], which is neither a default nor accumulated from a
    rule before the masking one. *)
Lemma mask_result_method_account_counterexample :
  exists ans,
    fst (match_ (mkRuler fixme_cfg [foo_rule; wechat_rule]) wechat_foobaz
                None) = Ok ans /\
    is_mask ans = Some true /\
    method_account ans = method_account wechat_rule /\
    method_account ans <> VStr "Assets:FIXME".
Proof.
  eexists. split; [vm_compute; reflexivity|].
  split; [reflexivity|]. split; [reflexivity|]. discriminate.
Qed.

(** C10 (amended): when the second loop reaches a rule that matches and
    masks, the attributes of the returned result are those of the working
    result at that point, that is, what [match] returns for the rules
    before it together with the method rules after it; nothing of the
    masking rule is copied, only [is_mask] becomes true. *)
Theorem mask_rule_copies_nothing
    (cfg : value) (pre post : list RuleMeta) (r : RuleMeta)
    (meta : Meta) (func_map : option resolver) (a0 a1 a2 : RuleMeta) :
  initial_ans cfg = Ok a0 ->
  pass1 (pre ++ r :: post) meta (default_resolver func_map) a0 = Ok a1 ->
  fst (pass2 pre meta (default_resolver func_map) a1) = Next a2 ->
  is_txn_method r = false ->
  fst (_match r meta (default_resolver func_map)) = Ok true ->
  mask_set (is_mask (snd (_match r meta (default_resolver func_map))))
  = true ->
  exists ans,
    fst (match_ (mkRuler cfg (pre ++ r :: post)) meta func_map) = Ok ans /\
    is_mask ans = Some true /\
    (forall k, getattr ans k = getattr a2 k) /\
    fst (match_ (mkRuler cfg (pre ++ filter is_txn_method post)) meta
                func_map) = Ok a2.
Proof.
  intros H0 H1 H2 Hm Hok Hmask.
  exists (set_is_mask a2 (Some true)).
  split; [eapply match_reaches_mask; eassumption|].
  split; [apply is_mask_set_is_mask|].
  split; [intros k; apply getattr_set_is_mask|].
  pose proof (pass1_checked _ _ _ _ _ H1) as Hc.
  apply Forall_app in Hc as [Hc1 Hc2].
  inversion Hc2 as [|? ? Hcr Hcp]; subst.
  assert (H1' : pass1 (pre ++ filter is_txn_method post) meta
                      (default_resolver func_map) a0 = Ok a1).
  { assert (F1 : Forall (fun r => check r = true) (pre ++ r :: post)).
    { apply Forall_app. split; [exact Hc1|]. constructor; assumption. }
    assert (F2 : Forall (fun r => check r = true)
                        (pre ++ filter is_txn_method post)).
    { apply Forall_app. split; [exact Hc1|].
      apply Forall_forall. intros p Hp. apply filter_In in Hp as [Hp _].
      rewrite Forall_forall in Hcp. now apply Hcp. }
    rewrite pass1_filter in H1 by exact F1.
    rewrite pass1_filter by exact F2.
    rewrite filter_rules_app in H1. cbn [filter] in H1.
    rewrite Hm in H1. cbn [app] in H1.
    rewrite filter_app.
    assert (E : filter is_txn_method (filter is_txn_method post)
                = filter is_txn_method post).
    { clear. induction post as [|p l IH]; [reflexivity|].
      cbn [filter]. destruct (is_txn_method p) eqn:E; [|exact IH].
      cbn [filter]. now rewrite E, IH. }
    now rewrite E. }
  rewrite (match_fst meta func_map
                     (mkRuler cfg (pre ++ filter is_txn_method post)) a0 a1
                     H0 H1').
  cbn [rules]. rewrite (pass2_app_next _ _ _ _ _ _ H2).
  now rewrite pass2_method_rules.
Qed.

Lemma mask_rule_copies_nothing_witness :
  exists ans,
    fst (match_ (mkRuler fixme_cfg [jim_rule; foo_rule; wechat_rule])
                [("payee", VStr "jim"); ("txn_method", VStr "alipay");
                 ("memo", VStr "foobaz")] None)
    = Ok ans /\
    is_mask ans = Some true /\
    (forall k, getattr ans k = getattr (apply_rule jim_rule fixme_ans) k) /\
    fst (match_ (mkRuler fixme_cfg
                         ([jim_rule] ++ filter is_txn_method [wechat_rule]))
                [("payee", VStr "jim"); ("txn_method", VStr "alipay");
                 ("memo", VStr "foobaz")] None)
    = Ok (apply_rule jim_rule fixme_ans).
Proof.
  apply (mask_rule_copies_nothing
           fixme_cfg [jim_rule] [wechat_rule] foo_rule
           [("payee", VStr "jim"); ("txn_method", VStr "alipay");
                 ("memo", VStr "foobaz")] None
           fixme_ans fixme_ans (apply_rule jim_rule fixme_ans));
    reflexivity.
Defined.

(** ** Last match wins *)

(** C3, as stated, fails: of three rules that match and set
    [target_account], the result has the value of the third, not that of
    the second, although the first and the second are two matching rules
    in that order. *)
Lemma later_third_rule_counterexample :
  fst (_match jim_rule1 jim_tea (Some identity)) = Ok true /\
  fst (_match jim_rule2 jim_tea (Some identity)) = Ok true /\
  exists ans,
    fst (match_ (mkRuler fixme_cfg [jim_rule1; jim_rule2; jim_rule3])
                jim_tea None) = Ok ans /\
    target_account ans <> target_account jim_rule2.
Proof.
  split; [reflexivity|]. split; [reflexivity|].
  eexists. split; [vm_compute; reflexivity|]. discriminate.
Qed.

(** C3 (amended): let R1 and R2 be rules that are not method rules, R1
    before R2 in the list, both matching the record without masking, R2
    setting [target_account]; if the second loop reaches R2 (no rule before
    it masks or raises) and no rule after R2 matches, the result of [match]
    has R2's [target_account] and R2's value for every attribute other than
    the two accounts, whatever R1 wrote. *)
Theorem last_match_wins
    (cfg : value) (pre post : list RuleMeta) (R1 R2 : RuleMeta)
    (meta : Meta) (func_map : option resolver) (a0 a1 a2 : RuleMeta) :
  initial_ans cfg = Ok a0 ->
  pass1 (pre ++ R2 :: post) meta (default_resolver func_map) a0 = Ok a1 ->
  fst (pass2 pre meta (default_resolver func_map) a1) = Next a2 ->
  In R1 pre -> is_txn_method R1 = false ->
  fst (_match R1 meta (default_resolver func_map)) = Ok true ->
  is_txn_method R2 = false ->
  fst (_match R2 meta (default_resolver func_map)) = Ok true ->
  mask_set (is_mask (snd (_match R2 meta (default_resolver func_map))))
  = false ->
  truthy (target_account R2) = true ->
  Forall (fun r => is_txn_method r = false ->
                   fst (_match r meta (default_resolver func_map))
                   = Ok false) post ->
  exists ans,
    fst (match_ (mkRuler cfg (pre ++ R2 :: post)) meta func_map) = Ok ans /\
    target_account ans = target_account R2 /\
    (forall k, is_account k = false -> getattr ans k = getattr R2 k) /\
    method_account ans =
    (if truthy (method_account R2) then method_account R2
     else method_account a2) /\
    is_mask ans = is_mask (snd (_match R2 meta (default_resolver func_map))).
Proof.
  intros H0 H1 H2 _ _ _ Hm Hok Hmask Ht Hpost.
  pose proof (match_frame meta (default_resolver func_map) R2) as Hsame.
  remember (snd (_match R2 meta (default_resolver func_map))) as R2' eqn:E2.
  exists (apply_rule R2' (set_is_mask a2 (is_mask R2'))).
  pose proof (pass1_checked _ _ _ _ _ H1) as Hc.
  apply Forall_app in Hc as [Hc1 Hc2].
  inversion Hc2 as [|? ? Hcr Hcp]; subst R2'.
  split.
  - rewrite (match_fst meta func_map (mkRuler cfg (pre ++ R2 :: post)) a0 a1
                       H0 H1).
    cbn [rules]. rewrite (pass2_app_next _ _ _ _ _ _ H2), pass2_fst_cons.
    unfold pass2_step. rewrite Hm, Hcr, Hok. cbn [negb]. rewrite Hmask.
    rewrite pass2_nomatch; [reflexivity|].
    rewrite Forall_forall in Hpost, Hcp |- *.
    intros p Hp E. split; [now apply Hcp|now apply Hpost].
  - rewrite apply_rule_target_account, apply_rule_method_account,
      apply_rule_is_mask, is_mask_set_is_mask.
    rewrite (same_fields_target_account _ _ Hsame),
      (same_fields_method_account _ _ Hsame), Ht.
    split; [reflexivity|]. split.
    + intros k Hk. rewrite (apply_rule_other _ _ _ Hk).
      apply (same_fields_getattr _ _ _ Hsame).
    + split; [|reflexivity].
      destruct (truthy (method_account R2)); [reflexivity|].
      destruct a2; reflexivity.
Qed.

Lemma last_match_wins_witness :
  exists ans,
    fst (match_ (mkRuler fixme_cfg [jim_rule1; jim_rule2; mike_rule])
                jim_tea None) = Ok ans /\
    target_account ans = VStr "Expenses:Two" /\
    getattr ans RULE_ITEM = VNone.
Proof.
  destruct (last_match_wins
              fixme_cfg [jim_rule1] [mike_rule] jim_rule1 jim_rule2
              jim_tea None fixme_ans fixme_ans
              (apply_rule jim_rule1 fixme_ans)
              eq_refl eq_refl eq_refl (or_introl eq_refl) eq_refl eq_refl
              eq_refl eq_refl eq_refl eq_refl)
    as [ans [H1 [H2 [H3 _]]]].
  - constructor; [reflexivity|constructor].
  - exists ans. split; [exact H1|]. split; [exact H2|].
    exact (H3 RULE_ITEM eq_refl).
Defined.

(** ** Mask and exclusion *)

Section MaskExclude.

Variables c e : string.
Hypothesis e_set : truthy (VStr e) = true.

Lemma scan_meta_single (meta : Meta) (fc : bool) (m : option bool) :
  scan_meta true (VStr e) meta [VStr c] fc m =
  (Ok (fc || existsb (fun kv => hit c (snd kv)) meta), mask_after c e meta m).
Proof.
  revert fc m. induction meta as [|[key v] meta' IH]; intros fc m.
  - cbn [scan_meta existsb mask_after]. now rewrite orb_false_r.
  - cbn [scan_meta scan_values existsb mask_after snd hit].
    destruct v as [| | |sv| |];
      try (rewrite IH; cbn [hit orb]; reflexivity).
    destruct (contains c sv) eqn:Hc.
    + rewrite e_set. rewrite IH. cbn [hit]. rewrite Hc. now destruct fc.
    + rewrite IH. cbn [hit]. rewrite Hc. reflexivity.
Qed.

Lemma mask_after_nohit (meta : Meta) (m : option bool) :
  Forall (fun kv => hit c (snd kv) = false) meta ->
  mask_after c e meta m = m.
Proof.
  induction 1 as [|[key v] meta' Hv Hrest IH]; [reflexivity|].
  cbn [mask_after]. cbn [snd] in Hv. destruct v; try exact IH.
  cbn [hit] in Hv. rewrite Hv. exact IH.
Qed.

Lemma mask_after_last (pre post : Meta) (key sv : string)
    (m : option bool) :
  contains c sv = true ->
  Forall (fun kv => hit c (snd kv) = false) post ->
  mask_after c e (pre ++ (key, VStr sv) :: post)%list m =
  Some (negb (contains e sv)).
Proof.
  intros Hc Hpost. revert m. induction pre as [|[k v] pre IH]; intros m.
  - cbn [app mask_after]. rewrite Hc. now apply mask_after_nohit.
  - rewrite <- app_comm_cons. cbn [mask_after]. apply IH.
Qed.

Lemma existsb_hit_last (pre post : Meta) (key sv : string) :
  contains c sv = true ->
  existsb (fun kv => hit c (snd kv)) (pre ++ (key, VStr sv) :: post)%list
  = true.
Proof.
  intros Hc. rewrite existsb_app. cbn [existsb snd hit]. rewrite Hc.
  now rewrite orb_true_r.
Qed.

End MaskExclude.

(** The rule of the scenario: [{txn_mask: "foo", txn_exclude: "bar"}]. *)
Lemma foo_rule_match (meta : Meta) (func_map : option resolver) :
  _match foo_rule meta func_map =
  (Ok (existsb (fun kv => hit "foo" (snd kv)) meta),
   set_is_mask foo_rule (mask_after "foo" "bar" meta None)).
Proof.
  assert (E : _match foo_rule meta func_map =
              let '(fc, m) :=
                scan_meta true (VStr "bar") meta [VStr "foo"] false None in
              match fc with
              | Raise e => (Raise e, set_is_mask foo_rule m)
              | Ok true => (Ok true, set_is_mask foo_rule m)
              | Ok false => (Ok false, set_is_mask foo_rule m)
              end) by reflexivity.
  rewrite E, (scan_meta_single "foo" "bar" eq_refl). cbn [orb].
  now destruct (existsb _ meta).
Qed.

(** C7, as stated, fails on a record with both kinds of value: the last
    scanned value decides.  With "foobar" then "foobaz" a value contains
    "foobar" and yet the mask state is true; with "foobaz" then "foobar" a
    value contains "foo" without "bar" and yet the mask state is false and
    the next rule is applied. *)
Lemma exclusion_order_counterexample :
  is_mask (snd (_match foo_rule foobar_then_foobaz (Some identity)))
  = Some true /\
  is_mask (snd (_match foo_rule foobaz_then_foobar (Some identity)))
  = Some false /\
  exists ans,
    fst (match_ (mkRuler fixme_cfg
                         [foo_rule;
                          rule_of [(RULE_TXN_META, VStr "foo");
                                   (RULE_PLUS_ACCOUNT, VStr "Expenses:Foo")]])
                foobaz_then_foobar None) = Ok ans /\
    target_account ans = VStr "Expenses:Foo".
Proof.
  split; [reflexivity|]. split; [reflexivity|].
  eexists. split; [vm_compute; reflexivity|reflexivity].
Qed.

(** C7 (amended): for the rule [{txn_mask: "foo", txn_exclude: "bar"}] the
    predicate succeeds when some metadata value is a string containing
    "foo", and the mask state is decided by the last such value in scan
    order: false when it contains "bar" (as "foobar"), and the second loop
    goes on to the next rule; true when it does not (as "foobaz"), and the
    second loop stops there. *)
Theorem foo_bar_mask_by_last_value
    (meta pre post : Meta) (key sv : string) (func_map : option resolver) :
  meta = (pre ++ (key, VStr sv) :: post)%list ->
  contains "foo" sv = true ->
  Forall (fun kv => hit "foo" (snd kv) = false) post ->
  fst (_match foo_rule meta func_map) = Ok true /\
  is_mask (snd (_match foo_rule meta func_map))
  = Some (negb (contains "bar" sv)) /\
  (forall rest a,
      contains "bar" sv = false ->
      fst (pass2 (foo_rule :: rest) meta func_map a) =
      Stop (set_is_mask a (Some true))) /\
  (forall rest a,
      contains "bar" sv = true ->
      fst (pass2 (foo_rule :: rest) meta func_map a) =
      fst (pass2 rest meta func_map
                 (apply_rule foo_rule (set_is_mask a (Some false))))).
Proof.
  intros -> Hc Hpost.
  assert (Hm : _match foo_rule (pre ++ (key, VStr sv) :: post)%list func_map =
               (Ok true,
                set_is_mask foo_rule (Some (negb (contains "bar" sv))))).
  { rewrite foo_rule_match, existsb_hit_last by assumption.
    now rewrite (mask_after_last "foo" "bar" pre post key sv None Hc Hpost). }
  split; [now rewrite Hm|]. split; [now rewrite Hm|].
  split; intros rest a Hb; rewrite pass2_fst_cons; unfold pass2_step;
    rewrite Hm; cbn [fst snd]; rewrite is_mask_set_is_mask, Hb;
    change (is_txn_method foo_rule) with false;
    change (check foo_rule) with true; cbn [negb mask_set].
  - reflexivity.
  - now rewrite (apply_rule_same_fields foo_rule)
      by apply same_fields_set.
Qed.

Lemma foo_bar_mask_by_last_value_witness :
  fst (_match foo_rule [("memo", VStr "foobar")] (Some identity)) = Ok true /\
  is_mask (snd (_match foo_rule [("memo", VStr "foobar")] (Some identity)))
  = Some false /\
  fst (_match foo_rule [("memo", VStr "foobaz")] (Some identity)) = Ok true /\
  is_mask (snd (_match foo_rule [("memo", VStr "foobaz")] (Some identity)))
  = Some true /\
  fst (pass2 [foo_rule; jim_rule] [("memo", VStr "foobaz")] (Some identity)
             fixme_ans) = Stop (set_is_mask fixme_ans (Some true)).
Proof.
  destruct (foo_bar_mask_by_last_value
              [("memo", VStr "foobar")] [] [] "memo" "foobar" (Some identity)
              eq_refl eq_refl (Forall_nil _)) as [A1 [A2 _]].
  destruct (foo_bar_mask_by_last_value
              [("memo", VStr "foobaz")] [] [] "memo" "foobaz" (Some identity)
              eq_refl eq_refl (Forall_nil _)) as [B1 [B2 [B3 _]]].
  split; [exact A1|]. split; [exact A2|]. split; [exact B1|].
  split; [exact B2|]. exact (B3 [jim_rule] fixme_ans eq_refl).
Defined.

(** ** The stored rules across calls *)

Lemma load_fields_is_mask (ks : list field) (cfg : value)
    (rule rule' : RuleMeta) :
  load_fields ks cfg rule = Ok rule' -> is_mask rule' = is_mask rule.
Proof.
  revert rule. induction ks as [|k ks IH]; intros rule.
  - cbn [load_fields]. now intros [= <-].
  - cbn [load_fields].
    destruct (py_in (field_name k) cfg) as [[|]|]; cbn [bind];
      try discriminate.
    + destruct (py_getitem cfg (field_name k)) as [v|]; cbn [bind];
        [|discriminate].
      intros H. apply IH in H. now rewrite is_mask_setattr in H.
    + apply IH.
Qed.

Lemma convert_loop_is_mask (cfgs : list value) (rs : list RuleMeta) :
  convert_loop cfgs = Ok rs -> Forall (fun r => is_mask r = None) rs.
Proof.
  revert rs. induction cfgs as [|cfg cfgs IH]; intros rs.
  - cbn [convert_loop]. intros [= <-]. constructor.
  - cbn [convert_loop].
    destruct (load_fields get_fields cfg RuleMeta_init) as [rule|] eqn:E;
      cbn [bind]; [|discriminate].
    destruct (convert_loop cfgs) as [rs'|]; cbn [bind]; [|discriminate].
    intros [= <-]. constructor; [|now apply IH].
    now rewrite (load_fields_is_mask _ _ _ _ E).
Qed.

Lemma Ruler_init_is_mask (file : option value) (self : Ruler) :
  Ruler_init file = Ok self ->
  Forall (fun r => is_mask r = None) (rules self).
Proof.
  unfold Ruler_init. destruct file as [doc|]; [|discriminate].
  destruct (_convert_to_rules doc) as [rs|] eqn:E; cbn [bind];
    [|discriminate].
  destruct (forallb check rs); [|discriminate].
  intros [= <-]. cbn [rules]. revert E. unfold _convert_to_rules.
  destruct (py_in "rules" doc) as [[|]|]; cbn [bind negb]; try discriminate.
  destruct (py_getitem doc "rules") as [x|]; cbn [bind]; [|discriminate].
  destruct (py_iter x) as [cfgs|]; cbn [bind]; [|discriminate].
  apply convert_loop_is_mask.
Qed.

Lemma reachable_mask_wf (self : Ruler) :
  reachable self -> Forall mask_wf (rules self).
Proof.
  induction 1 as [file self H|self meta func_map H IH].
  - eapply Forall_impl; [|exact (Ruler_init_is_mask _ _ H)].
    intros r Hr _. exact Hr.
  - now apply (match_frame_rules meta func_map self).
Qed.

Lemma method_test_same_fields (meta : Meta) (func_map : option resolver)
    (r r' : RuleMeta) :
  same_fields r r' ->
  method_test r' meta func_map = method_test r meta func_map.
Proof.
  intros H. unfold method_test.
  now rewrite (same_fields_getattr _ _ RULE_TXN_METHOD H).
Qed.

Lemma pass1_same_fields (meta : Meta) (func_map : option resolver)
    (rs1 rs2 : list RuleMeta) (a : RuleMeta) :
  Forall2 same_fields rs1 rs2 ->
  pass1 rs2 meta func_map a = pass1 rs1 meta func_map a.
Proof.
  intros H. revert a. induction H as [|r1 r2 rs1 rs2 Hr Hrs IH]; intros a;
    [reflexivity|].
  rewrite !pass1_cons.
  rewrite (check_same_fields _ _ Hr), (is_txn_method_same_fields _ _ Hr),
    (method_test_same_fields _ _ _ _ Hr),
    (same_fields_getattr _ _ RULE_MINUS_ACCOUNT Hr).
  destruct (check r1); cbn [negb]; [|reflexivity].
  destruct (is_txn_method r1); [|apply IH].
  destruct (method_test r1 meta func_map) as [hit'|]; cbn [bind];
    [apply IH|reflexivity].
Qed.

(** The result of [match] does not depend on the [is_mask] the rules
    carry. *)
Lemma match_rel_engine (meta : Meta) (func_map : option resolver)
    (self self2 : Ruler) :
  config self2 = config self ->
  Forall2 same_fields (rules self) (rules self2) ->
  Forall mask_wf (rules self) -> Forall mask_wf (rules self2) ->
  fst (match_ self2 meta func_map) = fst (match_ self meta func_map).
Proof.
  intros Hcfg Hrs W1 W2. unfold match_. rewrite Hcfg.
  destruct (initial_ans (config self)) as [a0|e]; cbn [bind];
    [|reflexivity].
  rewrite (pass1_same_fields _ _ _ _ a0 Hrs).
  destruct (pass1 (rules self) meta (default_resolver func_map) a0)
    as [a1|e]; cbn [bind]; [|reflexivity].
  destruct (assert_accounts a1) as [a1'|e]; [|reflexivity].
  pose proof (pass2_rel meta (default_resolver func_map) _ _ a1' Hrs W1 W2)
    as E.
  destruct (pass2 (rules self) meta (default_resolver func_map) a1')
    as [o1 rs1'],
    (pass2 (rules self2) meta (default_resolver func_map) a1')
    as [o2 rs2'].
  cbn [fst] in E. subst o2. now destruct o1.
Qed.

(** C8, as stated, fails: the flag a call assigns stays on the rule object.
    After a call on a record with "foobaz" the stored rule carries
    [is_mask = True]; a second call, on a record in which nothing contains
    "foo", does not assign it and leaves [True] in place. *)
Lemma is_mask_persists_counterexample :
  Ruler_init (Some foo_doc) = Ok foo_ruler /\
  map is_mask (rules foo_ruler) = [None] /\
  map is_mask (rules (snd (match_ foo_ruler [("memo", VStr "foobaz")] None)))
  = [Some true] /\
  fst (match_ (snd (match_ foo_ruler [("memo", VStr "foobaz")] None))
              [("memo", VStr "tea")] None) = Ok fixme_ans /\
  map is_mask
      (rules (snd (match_ (snd (match_ foo_ruler [("memo", VStr "foobaz")]
                                       None))
                          [("memo", VStr "tea")] None)))
  = [Some true].
Proof. repeat split; vm_compute; reflexivity. Qed.

(** C8 (amended): on an engine built by the constructor and used for any
    number of [match] calls, a further call changes neither the
    configuration nor any attribute of a stored rule other than [is_mask];
    the flag itself stays on the rule between calls, but no result depends
    on it: two such engines whose rules agree up to [is_mask] return the
    same result (or raise the same exception) on every record. *)
Theorem stored_rules_change_in_is_mask_only
    (self : Ruler) (meta : Meta) (func_map : option resolver) :
  reachable self ->
  config (snd (match_ self meta func_map)) = config self /\
  Forall2 same_fields (rules self) (rules (snd (match_ self meta func_map)))
  /\
  (forall self2,
      reachable self2 ->
      config self2 = config self ->
      Forall2 same_fields (rules self) (rules self2) ->
      fst (match_ self2 meta func_map) = fst (match_ self meta func_map)).
Proof.
  intros Hreach.
  destruct (match_frame_rules meta func_map self) as [F1 [F2 _]].
  split; [exact F1|]. split; [exact F2|].
  intros self2 Hreach2 Hcfg Hrs.
  apply match_rel_engine; auto using reachable_mask_wf.
Qed.

Lemma stored_rules_change_in_is_mask_only_witness :
  reachable foo_ruler /\
  config (snd (match_ foo_ruler [("memo", VStr "foobaz")] None))
  = config foo_ruler /\
  Forall2 same_fields (rules foo_ruler)
          (rules (snd (match_ foo_ruler [("memo", VStr "foobaz")] None))) /\
  fst (match_ (snd (match_ foo_ruler [("memo", VStr "foobaz")] None))
              [("memo", VStr "foobar")] None)
  = fst (match_ foo_ruler [("memo", VStr "foobar")] None).
Proof.
  assert (R : reachable foo_ruler)
    by (apply (reach_init (Some foo_doc)); reflexivity).
  split; [exact R|].
  destruct (stored_rules_change_in_is_mask_only
              foo_ruler [("memo", VStr "foobaz")] None R) as [A1 [A2 _]].
  split; [exact A1|]. split; [exact A2|].
  destruct (stored_rules_change_in_is_mask_only
              foo_ruler [("memo", VStr "foobar")] None R) as [_ [_ A3]].
  apply A3; [now apply reach_match|exact A1|exact A2].
Defined.

(** ** Construction and the default accounts *)

(** C5, as stated, fails: the constructor returns an engine for a
    configuration without default accounts, and for one whose default is
    the empty string. *)
Lemma construction_without_defaults_counterexample :
  Ruler_init (Some no_defaults_doc) = Ok (mkRuler no_defaults_doc [mike_rule])
  /\
  Ruler_init (Some empty_default_doc)
  = Ok (mkRuler empty_default_doc [mike_rule]).
Proof. split; reflexivity. Qed.

Lemma convert_to_rules_dict (d d' : dict value) :
  dict_get d' "rules" = dict_get d "rules" ->
  _convert_to_rules (VDict d') = _convert_to_rules (VDict d).
Proof.
  intros H. unfold _convert_to_rules, py_in, py_getitem, dict_has, subscript.
  now rewrite H.
Qed.

(** C5 (amended): the constructor does not look at the default accounts,
    so that an engine is returned for any configuration with the same
    [rules]; when a default account is missing or empty it is every call of
    [match] that fails, with [KeyError] or [AssertionError], before any
    rule is looked at and without a result. *)
Theorem missing_default_fails_in_match
    (d : dict value) (self : Ruler) (meta : Meta)
    (func_map : option resolver) :
  Ruler_init (Some (VDict d)) = Ok self ->
  default_unset d _DEFAULT_MINUS || default_unset d _DEFAULT_PLUS = true ->
  (forall d',
      dict_get d' "rules" = dict_get d "rules" ->
      exists self',
        Ruler_init (Some (VDict d')) = Ok self' /\ rules self' = rules self)
  /\
  exists e,
    (e = KeyError \/ e = AssertionError) /\
    match_ self meta func_map = (Raise e, self).
Proof.
  intros Hinit Hunset. split.
  - intros d' Hd'. revert Hinit. unfold Ruler_init.
    rewrite (convert_to_rules_dict d d' Hd').
    destruct (_convert_to_rules (VDict d)) as [rs|]; cbn [bind];
      [|discriminate].
    destruct (forallb check rs); [|discriminate].
    intros [= <-]. eexists. split; reflexivity.
  - assert (Hcfg : config self = VDict d).
    { revert Hinit. unfold Ruler_init.
      destruct (_convert_to_rules (VDict d)) as [rs|]; cbn [bind];
        [|discriminate].
      destruct (forallb check rs); [|discriminate]. now intros [= <-]. }
    assert (H : exists e,
               (e = KeyError \/ e = AssertionError) /\
               initial_ans (config self) = Raise e).
    { rewrite Hcfg. unfold initial_ans, py_getitem, subscript.
      unfold default_unset in Hunset.
      destruct (dict_get d _DEFAULT_MINUS) as [dm|]; cbn [bind];
        [|eexists; split; [left|]; reflexivity].
      destruct (dict_get d _DEFAULT_PLUS) as [dp|]; cbn [bind];
        [|eexists; split; [left|]; reflexivity].
      unfold assert_accounts.
      assert (E1 : method_account
                     (setattr (setattr RuleMeta_init RULE_MINUS_ACCOUNT dm)
                              RULE_PLUS_ACCOUNT dp) = dm) by reflexivity.
      assert (E2 : target_account
                     (setattr (setattr RuleMeta_init RULE_MINUS_ACCOUNT dm)
                              RULE_PLUS_ACCOUNT dp) = dp) by reflexivity.
      rewrite E1, E2.
      destruct (truthy dm), (truthy dp); try discriminate Hunset;
        eexists; (split; [right|]; reflexivity). }
    destruct H as [e [He H]]. exists e. split; [exact He|].
    apply match_early_raise. now rewrite H.
Qed.

Lemma missing_default_fails_in_match_witness :
  Ruler_init (Some no_defaults_doc) = Ok (mkRuler no_defaults_doc [mike_rule])
  /\
  exists e,
    (e = KeyError \/ e = AssertionError) /\
    match_ (mkRuler no_defaults_doc [mike_rule]) [("payee", VStr "mike")]
           None
    = (Raise e, mkRuler no_defaults_doc [mike_rule]).
Proof.
  split; [reflexivity|].
  exact (proj2 (missing_default_fails_in_match
                  [("rules", VList [VDict [("payee", VStr "mike")]])]
                  (mkRuler no_defaults_doc [mike_rule])
                  [("payee", VStr "mike")] None eq_refl eq_refl)).
Defined.

(** ** When [match] returns *)

Lemma well_typed_set_is_mask (r : RuleMeta) (m : option bool) :
  well_typed (set_is_mask r m) = well_typed r.
Proof. destruct r; reflexivity. Qed.

Section Totality.

Variable meta : Meta.
Variable func_map : option resolver.
Hypothesis keys : keys_present meta func_map = true.

Lemma resolved_key_present (k : field) (s : string) :
  resolved func_map (field_name k) = Some s -> dict_has meta s = true.
Proof.
  intros H. unfold keys_present in keys.
  rewrite forallb_forall in keys. specialize (keys k (in_get_fields k)).
  now rewrite H in keys.
Qed.

Lemma candidates_total (r : RuleMeta) (k : field) :
  well_typed r = true -> is_none (getattr r k) = false ->
  exists vals, candidates r (getattr r k) = Ok vals.
Proof.
  unfold well_typed, candidates. intros H Hk.
  apply andb_prop in H as [H _].
  destruct (truthy (seperator r)) eqn:Hs; [|now eexists].
  cbn [negb orb] in H. rewrite forallb_forall in H.
  pose proof (H k (in_get_fields k)) as H1.
  pose proof (H RULE_SEPERATOR (in_get_fields _)) as H2.
  rewrite Hk in H1. cbn [orb getattr] in H1, H2.
  destruct (getattr r k) as [| | |s| |]; try discriminate H1.
  destruct (seperator r) as [| | |sep| |]; try discriminate H2;
    try discriminate Hs.
  unfold split. cbn [truthy] in Hs.
  destruct (String.eqb sep ""); [discriminate Hs|]. cbn [bind].
  now eexists.
Qed.

Lemma equal_values_unresolved (vals : list value) :
  equal_values meta None vals = Ok false.
Proof. induction vals as [|v rest IH]; cbn [equal_values]; auto. Qed.

(** A set field whose name the resolver does not resolve makes the
    predicate fail. *)
Lemma match_loop_unresolved (k : field) (ks : list field) (r : RuleMeta) :
  In k ks -> equality_field k = true ->
  is_none (getattr r k) = false ->
  resolved func_map (field_name k) = None ->
  fst (_match_loop ks r meta func_map) <> Ok true.
Proof.
  intros Hin Heq Hk Hres. revert r Hk Hin.
  induction ks as [|k0 ks IH]; intros r Hk Hin; [destruct Hin|].
  cbn [_match_loop].
  destruct (field_eqb k0 k) eqn:E.
  - apply field_eqb_eq in E. subst k0. unfold equality_field in Heq.
    apply andb_prop in Heq as [Heq1 Heq2].
    apply negb_true_iff in Heq1, Heq2. rewrite Heq1, Hk, Heq2.
    destruct (candidates r (getattr r k)) as [vals|e]; [|discriminate].
    rewrite Hres, equal_values_unresolved. discriminate.
  - assert (Hin' : In k ks).
    { destruct Hin as [->|Hin]; [|exact Hin].
      now rewrite field_eqb_refl in E. }
    destruct (_ || _); [now apply IH|].
    destruct (is_none (getattr r k0)); [now apply IH|].
    destruct (candidates r (getattr r k0)) as [vals|e]; [|discriminate].
    destruct (_ || _).
    + destruct (scan_meta _ _ meta vals false (is_mask r)) as [fc m].
      destruct fc as [[|]|e]; try discriminate.
      apply IH; [|exact Hin']. now rewrite getattr_set_is_mask.
    + destruct (equal_values _ _ _) as [[|]|e]; try discriminate.
      now apply IH.
Qed.

Lemma match_not_true (k : field) (r : RuleMeta) :
  equality_field k = true ->
  is_none (getattr r k) = false ->
  resolved func_map (field_name k) = None ->
  fst (_match r meta func_map) <> Ok true.
Proof.
  intros Heq Hk Hres.
  exact (match_loop_unresolved k get_fields r (in_get_fields k) Heq Hk Hres).
Qed.

End Totality.

Lemma Forall2_same_fields_transfer (P : RuleMeta -> Prop)
    (l l' : list RuleMeta) :
  (forall r r', same_fields r r' -> P r -> P r') ->
  Forall2 same_fields l l' -> Forall P l -> Forall P l'.
Proof.
  intros HP H. induction H as [|r r' l l' Hr Hl IH]; intros HF;
    [constructor|].
  inversion HF; subst. constructor; eauto.
Qed.

Lemma Ruler_init_check (file : option value) (self : Ruler) :
  Ruler_init file = Ok self ->
  Forall (fun r => check r = true) (rules self).
Proof.
  unfold Ruler_init. destruct file as [doc|]; [|discriminate].
  destruct (_convert_to_rules doc) as [rs|]; cbn [bind]; [|discriminate].
  destruct (forallb check rs) eqn:E; [|discriminate].
  intros [= <-]. cbn [rules]. apply Forall_forall.
  now apply forallb_forall.
Qed.

Lemma reachable_check (self : Ruler) :
  reachable self -> Forall (fun r => check r = true) (rules self).
Proof.
  induction 1 as [file self H|self meta func_map H IH].
  - exact (Ruler_init_check _ _ H).
  - apply (Forall2_same_fields_transfer _ (rules self)); [| |exact IH].
    + intros r r' Hr Hc. now rewrite (check_same_fields _ _ Hr).
    + apply match_frame_rules.
Qed.

(** C1, as stated, fails: on the engine of rule_test.py, a record without
    the key [payee] makes [match] raise [KeyError] at [meta[func_map(k)]]. *)
Lemma missing_key_raises_counterexample :
  Ruler_init (Some test_doc) = Ok test_ruler /\
  fst (match_ test_ruler [] None) = Raise KeyError /\
  fst (match_ test_ruler [("item", VStr "tea")] None) = Raise KeyError.
Proof. repeat split; reflexivity. Qed.

Lemma match_typed_set_is_mask (r : RuleMeta) (m : option bool) :
  match_typed (set_is_mask r m) = match_typed r.
Proof. destruct r; reflexivity. Qed.

Lemma candidates_typed (r : RuleMeta) (k : field) :
  match_typed r = true -> tested_field k = true ->
  is_none (getattr r k) = false ->
  exists vals, candidates r (getattr r k) = Ok vals.
Proof.
  unfold match_typed, candidates. intros H Ht Hk.
  apply andb_prop in H as [H _].
  destruct (truthy (seperator r)) eqn:Hs; [|now eexists].
  cbn [negb orb] in H. apply andb_prop in H as [H2 H].
  rewrite forallb_forall in H.
  pose proof (H k (in_get_fields k)) as H1.
  rewrite Ht, Hk in H1. cbn [negb orb] in H1.
  destruct (getattr r k) as [| | |s| |]; try discriminate H1.
  destruct (seperator r) as [| | |sep| |]; try discriminate H2.
  unfold split. cbn [truthy] in Hs.
  destruct (String.eqb sep ""); [discriminate Hs|]. cbn [bind].
  now eexists.
Qed.

Lemma scan_values_typed mask ex v vals fc m :
  (mask = true -> negb (truthy ex) || is_str ex = true) ->
  exists b, fst (scan_values mask ex v vals fc m) = Ok b.
Proof.
  intros Hex. revert fc m.
  induction vals as [|val rest IH]; intros fc m; cbn [scan_values].
  - now eexists.
  - destruct v; try apply IH. destruct val; try apply IH.
    destruct (contains _ _); [|apply IH].
    destruct mask; [|apply IH].
    specialize (Hex eq_refl).
    destruct (truthy ex); [|apply IH].
    destruct ex; try discriminate Hex. apply IH.
Qed.

Lemma scan_meta_typed mask ex meta vals fc m :
  (mask = true -> negb (truthy ex) || is_str ex = true) ->
  exists b, fst (scan_meta mask ex meta vals fc m) = Ok b.
Proof.
  intros Hex. revert fc m.
  induction meta as [|[key v] meta' IH]; intros fc m; cbn [scan_meta].
  - now eexists.
  - destruct (scan_values_typed mask ex v vals fc m Hex) as [b Hb].
    destruct (scan_values mask ex v vals fc m) as [[fc'|e] m'];
      cbn [fst] in Hb; [apply IH|discriminate].
Qed.

Lemma equal_values_present meta s vals :
  dict_has meta s = true ->
  exists b, equal_values meta (Some s) vals = Ok b.
Proof.
  unfold dict_has. intros H.
  induction vals as [|v rest IH]; cbn [equal_values]; [now eexists|].
  unfold subscript. destruct (dict_get meta s) as [x|]; [|discriminate H].
  cbn [bind]. destruct (py_eq v x); [now eexists|exact IH].
Qed.

(** [_match] returns on a rule of the right types when the record has the
    keys the rule's equality fields resolve to. *)
Lemma match_loop_typed meta func_map ks r :
  match_typed r = true ->
  (forall k s,
      In k ks -> equality_field k = true ->
      is_none (getattr r k) = false ->
      resolved func_map (field_name k) = Some s ->
      dict_has meta s = true) ->
  exists b, fst (_match_loop ks r meta func_map) = Ok b.
Proof.
  revert r. induction ks as [|k ks IH]; intros r Hr Hk; cbn [_match_loop];
    [now eexists|].
  assert (Hk' : forall k' s,
             In k' ks -> equality_field k' = true ->
             is_none (getattr r k') = false ->
             resolved func_map (field_name k') = Some s ->
             dict_has meta s = true).
  { intros k' s Hin. apply Hk. now right. }
  destruct (field_eqb k RULE_MINUS_ACCOUNT || field_eqb k RULE_PLUS_ACCOUNT
            || field_eqb k RULE_SEPERATOR || field_eqb k RULE_TXN_EXCLUDE)
    eqn:Es; [now apply IH|].
  destruct (is_none (getattr r k)) eqn:Hn; [now apply IH|].
  assert (Ht : tested_field k = true)
    by (unfold tested_field; now rewrite Es).
  destruct (candidates_typed r k Hr Ht Hn) as [vals ->].
  destruct (field_eqb k RULE_TXN_META || field_eqb k RULE_TXN_MASK) eqn:Em.
  - assert (Hex : field_eqb k RULE_TXN_MASK = true ->
                  negb (truthy (getattr r RULE_TXN_EXCLUDE))
                  || is_str (getattr r RULE_TXN_EXCLUDE) = true).
    { intros E. apply field_eqb_eq in E. subst k. cbn [getattr] in Hn |- *.
      unfold match_typed in Hr. apply andb_prop in Hr as [_ Hr].
      rewrite Hn in Hr. exact Hr. }
    destruct (scan_meta_typed (field_eqb k RULE_TXN_MASK)
                (getattr r RULE_TXN_EXCLUDE) meta vals false (is_mask r) Hex)
      as [b Hb].
    destruct (scan_meta _ _ meta vals false (is_mask r)) as [fc m].
    cbn [fst] in Hb. subst fc. destruct b; [|now eexists].
    apply IH; [now rewrite match_typed_set_is_mask|].
    intros k' s Hin He Hn'. rewrite getattr_set_is_mask in Hn'.
    now apply Hk'.
  - destruct (resolved func_map (field_name k)) as [s|] eqn:Rs.
    + assert (D : dict_has meta s = true).
      { apply (Hk k s); [now left| |exact Hn|exact Rs].
        unfold equality_field. now rewrite Es, Em. }
      destruct (equal_values_present meta s vals D) as [b ->].
      destruct b; [now apply IH|now eexists].
    + rewrite equal_values_unresolved. now eexists.
Qed.

Lemma rule_keys_equality meta func_map r k s :
  rule_keys r meta func_map = true ->
  is_txn_method r = false ->
  equality_field k = true ->
  is_none (getattr r k) = false ->
  resolved func_map (field_name k) = Some s ->
  dict_has meta s = true.
Proof.
  unfold rule_keys. intros H Hm He Hn Rs.
  rewrite forallb_forall in H. specialize (H k (in_get_fields k)).
  unfold looks_up in H. rewrite Hm, He, Hn, Rs in H. exact H.
Qed.

Lemma match_typed_total meta func_map r :
  match_typed r = true ->
  rule_keys r meta func_map = true ->
  is_txn_method r = false ->
  exists b, fst (_match r meta func_map) = Ok b.
Proof.
  intros Hr Hk Hm.
  refine (match_loop_typed meta func_map get_fields r Hr _).
  intros k s _. now apply rule_keys_equality.
Qed.

Lemma method_test_keys meta func_map r :
  rule_keys r meta func_map = true ->
  is_txn_method r = true ->
  exists b, method_test r meta func_map = Ok b.
Proof.
  unfold rule_keys. intros H Hm.
  rewrite forallb_forall in H.
  specialize (H RULE_TXN_METHOD (in_get_fields _)).
  unfold looks_up in H. rewrite Hm in H. cbn [field_eqb negb orb] in H.
  unfold method_test.
  destruct (resolved func_map (field_name RULE_TXN_METHOD)) as [s|];
    [|now eexists].
  rewrite field_eqb_refl in H. cbn [negb orb] in H.
  unfold dict_has in H. unfold subscript.
  destruct (dict_get meta s); [|discriminate H]. cbn [bind]. now eexists.
Qed.

Lemma pass1_keys meta func_map rs a :
  Forall (fun r => check r = true) rs ->
  keys_for rs meta func_map = true ->
  exists a', pass1 rs meta func_map a = Ok a'.
Proof.
  intros Hc. revert a. induction Hc as [|r rs Hr Hrs IH]; intros a Hk.
  - now eexists.
  - unfold keys_for in Hk. cbn [forallb] in Hk.
    apply andb_prop in Hk as [Hk1 Hk2].
    rewrite pass1_cons, Hr. cbn [negb].
    destruct (is_txn_method r) eqn:Hm; [|now apply IH].
    destruct (method_test_keys meta func_map r Hk1 Hm) as [b ->].
    cbn [bind]. now apply IH.
Qed.

Lemma pass2_keys meta func_map rs a :
  Forall (fun r => check r = true) rs ->
  Forall (fun r => match_typed r = true) rs ->
  keys_for rs meta func_map = true ->
  exists a', fst (pass2 rs meta func_map a) = Next a' \/
             fst (pass2 rs meta func_map a) = Stop a'.
Proof.
  intros Hc. revert a.
  induction Hc as [|r rs Hr Hrs IH]; intros a Ht Hk.
  - exists a. now left.
  - inversion Ht as [|? ? Htr Htrs]; subst.
    unfold keys_for in Hk. cbn [forallb] in Hk.
    apply andb_prop in Hk as [Hk1 Hk2].
    rewrite pass2_fst_cons. unfold pass2_step.
    destruct (is_txn_method r) eqn:Hm; [now apply IH|].
    rewrite Hr. cbn [negb].
    destruct (match_typed_total meta func_map r Htr Hk1 Hm) as [b ->].
    destruct b; [|now apply IH].
    destruct (mask_set _); [|now apply IH].
    eexists. now right.
Qed.

Lemma keys_for_in meta func_map rs r :
  keys_for rs meta func_map = true -> In r rs ->
  rule_keys r meta func_map = true.
Proof.
  unfold keys_for. intros H Hin. rewrite forallb_forall in H. now apply H.
Qed.

(** C1 (amended): on an engine built by the constructor whose two default
    accounts are present and non-empty and whose rule values are strings
    where [_match] applies a separator or an exclusion, [match] returns a
    result, both accounts set, for every record that has a key for each
    resolved field name the rules make it look up: [txn_method] when there
    is a method rule, and the equality fields the other rules set.  A set
    field whose name the resolver does not resolve makes that rule fail to
    match, without an error, and a method rule whose [txn_method] name is
    not resolved does not apply.  (A resolved name that is not a key of the
    record raises [KeyError].) *)
Theorem match_returns_when_keys_present
    (self : Ruler) (meta : Meta) (func_map : option resolver)
    (a0 : RuleMeta) :
  reachable self ->
  initial_ans (config self) = Ok a0 ->
  Forall (fun r => match_typed r = true) (rules self) ->
  keys_for (rules self) meta (default_resolver func_map) = true ->
  (exists ans,
      fst (match_ self meta func_map) = Ok ans /\
      truthy (method_account ans) = true /\
      truthy (target_account ans) = true) /\
  (forall r k,
      In r (rules self) ->
      is_txn_method r = false ->
      equality_field k = true ->
      is_none (getattr r k) = false ->
      resolved (default_resolver func_map) (field_name k) = None ->
      fst (_match r meta (default_resolver func_map)) = Ok false) /\
  (forall r,
      In r (rules self) ->
      is_txn_method r = true ->
      resolved (default_resolver func_map) (field_name RULE_TXN_METHOD)
      = None ->
      method_test r meta (default_resolver func_map) = Ok false).
Proof.
  intros Hreach H0 Ht Hkeys. split; [|split].
  - pose proof (reachable_check self Hreach) as Hc.
    destruct (pass1_keys meta (default_resolver func_map) (rules self) a0
                         Hc Hkeys) as [a1 H1].
    rewrite (match_fst meta func_map self a0 a1 H0 H1).
    assert (Ha1 : accounts_set a1).
    { apply (pass1_frame _ _ _ _ _ H1), (initial_ans_accounts _ _ H0). }
    pose proof (pass2_accounts meta (default_resolver func_map) (rules self)
                               a1 Ha1) as Hacc.
    destruct (pass2_keys meta (default_resolver func_map) (rules self) a1
                         Hc Ht Hkeys) as [a' [E|E]];
      rewrite E in Hacc |- *; exists a'; cbn [outcome_result];
      (split; [reflexivity|exact Hacc]).
  - intros r k Hin Hm Heq Hk Hres.
    rewrite Forall_forall in Ht.
    destruct (match_typed_total meta (default_resolver func_map) r
                                (Ht r Hin)
                                (keys_for_in _ _ _ r Hkeys Hin) Hm)
      as [b Hb].
    pose proof (match_not_true meta (default_resolver func_map) k r
                               Heq Hk Hres) as Hne.
    rewrite Hb in Hne |- *. destruct b; [now elim Hne|reflexivity].
  - intros r Hin Hm Hres. unfold method_test. now rewrite Hres.
Qed.

Lemma match_returns_when_keys_present_witness :
  (exists ans,
      fst (match_ test_ruler [("payee", VStr "jim")] None) = Ok ans /\
      truthy (method_account ans) = true /\
      truthy (target_account ans) = true) /\
  (exists ans,
      fst (match_ tea_ruler [("Counterparty", VStr "jim")] (Some payee_only))
      = Ok ans /\
      truthy (method_account ans) = true /\
      truthy (target_account ans) = true) /\
  fst (_match tea_rule [("Counterparty", VStr "jim")]
              (default_resolver (Some payee_only))) = Ok false.
Proof.
  split.
  - refine (proj1 (match_returns_when_keys_present
                     test_ruler [("payee", VStr "jim")] None fixme_ans
                     _ eq_refl _ eq_refl)).
    + apply (reach_init (Some test_doc)). reflexivity.
    + repeat constructor.
  - destruct (match_returns_when_keys_present
                tea_ruler [("Counterparty", VStr "jim")] (Some payee_only)
                fixme_ans) as [A [B _]].
    + apply (reach_init (Some tea_doc)). reflexivity.
    + reflexivity.
    + repeat constructor.
    + reflexivity.
    + split; [exact A|].
      apply (B tea_rule RULE_ITEM); [|reflexivity..].
      cbn [rules tea_ruler In]. tauto.
Defined.

(** ** garther_accounts *)

(** The order of strings. *)
Lemma ascii_compare_refl (a : ascii) : Ascii.compare a a = Eq.
Proof. unfold Ascii.compare. apply N.compare_refl. Qed.

Lemma ascii_compare_lt_trans (a b c : ascii) :
  Ascii.compare a b = Lt -> Ascii.compare b c = Lt -> Ascii.compare a c = Lt.
Proof.
  unfold Ascii.compare. rewrite !N.compare_lt_iff. apply N.lt_trans.
Qed.

Lemma string_compare_lt_trans (a b c : string) :
  String.compare a b = Lt -> String.compare b c = Lt ->
  String.compare a c = Lt.
Proof.
  revert b c. induction a as [|x a IH]; intros [|y b] [|z c];
    cbn [String.compare]; try discriminate; try reflexivity.
  destruct (Ascii.compare x y) eqn:Exy; try discriminate.
  - apply Ascii.compare_eq_iff in Exy. subst y.
    destruct (Ascii.compare x z) eqn:Exz; try discriminate; auto.
    apply IH.
  - intros _. destruct (Ascii.compare y z) eqn:Eyz; try discriminate.
    + apply Ascii.compare_eq_iff in Eyz. subst z. now rewrite Exy.
    + now rewrite (ascii_compare_lt_trans _ _ _ Exy Eyz).
Qed.

Lemma string_leb_lt (a b : string) :
  String.leb a b = true -> a <> b -> String.ltb a b = true.
Proof.
  unfold String.leb, String.ltb. intros H Hne.
  destruct (String.compare a b) eqn:E; try discriminate; [|reflexivity].
  apply String.compare_eq_iff in E. contradiction.
Qed.

Lemma string_ltb_trans (a b c : string) :
  String.ltb a b = true -> String.ltb b c = true -> String.ltb a c = true.
Proof.
  unfold String.ltb. intros H1 H2.
  destruct (String.compare a b) eqn:E1; try discriminate.
  destruct (String.compare b c) eqn:E2; try discriminate.
  now rewrite (string_compare_lt_trans _ _ _ E1 E2).
Qed.

Lemma string_compare_refl (a : string) : String.compare a a = Eq.
Proof.
  induction a as [|x a IH]; cbn [String.compare]; [reflexivity|].
  now rewrite ascii_compare_refl.
Qed.

Lemma string_ltb_irrefl (a : string) : String.ltb a a = false.
Proof. unfold String.ltb. now rewrite string_compare_refl. Qed.

Lemma string_leb_trans (a b c : string) :
  String.leb a b = true -> String.leb b c = true -> String.leb a c = true.
Proof.
  unfold String.leb. intros H1 H2.
  destruct (String.compare a b) eqn:E1; try discriminate.
  - apply String.compare_eq_iff in E1. now subst b.
  - destruct (String.compare b c) eqn:E2; try discriminate.
    + apply String.compare_eq_iff in E2. subst c. now rewrite E1.
    + now rewrite (string_compare_lt_trans _ _ _ E1 E2).
Qed.

(** Insertion sort. *)
Section Sort.

Variable A : Type.
Variable leb : A -> A -> bool.
Hypothesis leb_total : forall a b, leb a b = true \/ leb b a = true.
Hypothesis leb_trans :
  forall a b c, leb a b = true -> leb b c = true -> leb a c = true.

Lemma insert_by_perm (x : A) (l : list A) :
  Permutation (x :: l) (insert_by leb x l).
Proof.
  induction l as [|y l IH]; cbn [insert_by]; [reflexivity|].
  destruct (leb x y); [reflexivity|].
  rewrite perm_swap. now constructor.
Qed.

Lemma sort_by_perm (l : list A) : Permutation l (sort_by leb l).
Proof.
  induction l as [|x l IH]; cbn [sort_by]; [constructor|].
  rewrite <- insert_by_perm. now constructor.
Qed.

Lemma insert_by_sorted (x : A) (l : list A) :
  StronglySorted (fun a b => leb a b = true) l ->
  StronglySorted (fun a b => leb a b = true) (insert_by leb x l).
Proof.
  induction 1 as [|y l Hl IH Hy]; cbn [insert_by].
  - repeat constructor.
  - destruct (leb x y) eqn:E.
    + constructor; [now constructor|]. constructor; [exact E|].
      eapply Forall_impl; [|exact Hy]. intros z Hz. now apply (leb_trans x y).
    + constructor; [exact IH|].
      apply (Permutation_Forall (insert_by_perm x l)).
      constructor; [|exact Hy].
      destruct (leb_total x y); congruence.
Qed.

Lemma sort_by_sorted (l : list A) :
  StronglySorted (fun a b => leb a b = true) (sort_by leb l).
Proof.
  induction l as [|x l IH]; cbn [sort_by]; [constructor|].
  now apply insert_by_sorted.
Qed.

End Sort.

Lemma sort_by_map_VStr (l : list string) :
  sort_by value_leb (map VStr l) = map VStr (sort_by String.leb l).
Proof.
  induction l as [|x l IH]; [reflexivity|].
  cbn [sort_by map]. rewrite IH. generalize (sort_by String.leb l).
  intros l'. induction l' as [|y l' IH']; [reflexivity|].
  cbn [insert_by map value_leb].
  destruct (String.leb x y); [reflexivity|]. cbn [map]. now rewrite IH'.
Qed.

Lemma forallb_is_str_map (l : list string) :
  forallb is_str (map VStr l) = true.
Proof. induction l; cbn; auto. Qed.

Lemma py_sort_strings (l : list string) :
  py_sort (map VStr l) = Ok (map VStr (sort_by String.leb l)).
Proof.
  destruct l as [|x [|y l]]; try reflexivity.
  unfold py_sort.
  change (map VStr (x :: y :: l)) with (VStr x :: VStr y :: map VStr l).
  change (VStr x :: VStr y :: map VStr l) with (map VStr (x :: y :: l)).
  rewrite forallb_is_str_map. cbn [orb]. now rewrite sort_by_map_VStr.
Qed.

Lemma existsb_py_eq_strings (s : string) (l : list string) :
  existsb (py_eq (VStr s)) (map VStr l) = true <-> In s l.
Proof.
  induction l as [|x l IH]; cbn [existsb map In py_eq].
  - split; [discriminate|tauto].
  - rewrite orb_true_iff, IH, String.eqb_eq. split; intros [H|H]; auto.
Qed.

Lemma add_account_strings (acc : list string) (v : value) :
  NoDup acc -> is_none v || is_str v = true ->
  exists acc',
    add_account (map VStr acc) v = Ok (map VStr acc') /\ NoDup acc' /\
    forall s, In s acc' <-> In s acc \/ (s <> "" /\ v = VStr s).
Proof.
  intros Hnd Hv. unfold add_account.
  destruct v as [| | |s| |]; try discriminate Hv.
  - exists acc. cbn [truthy]. split; [reflexivity|]. split; [exact Hnd|].
    intros s. split; [auto|]. intros [H|[_ H]]; [exact H|discriminate].
  - cbn [truthy]. destruct (String.eqb s "") eqn:Es; cbn [negb].
    + apply String.eqb_eq in Es. subst s.
      exists acc. split; [reflexivity|]. split; [exact Hnd|].
      intros s. split; [auto|].
      intros [H|[H1 H2]]; [exact H|]. injection H2 as <-. now elim H1.
    + apply String.eqb_neq in Es.
      unfold set_add, set_mem. cbn [hashable bind].
      destruct (existsb (py_eq (VStr s)) (map VStr acc)) eqn:E; cbn [negb].
      * apply existsb_py_eq_strings in E.
        exists acc. split; [reflexivity|]. split; [exact Hnd|].
        intros s'. split; [auto|].
        intros [H|[_ H]]; [exact H|]. now injection H as <-.
      * assert (Hnot : ~ In s acc).
        { intros H. apply existsb_py_eq_strings in H. congruence. }
        exists (acc ++ [s])%list. split.
        { now rewrite map_app. }
        split.
        { apply NoDup_app; [exact Hnd|repeat constructor; intros []|].
          intros x Hx [<-|[]]. contradiction. }
        intros s'. rewrite in_app_iff. cbn [In]. split.
        -- intros [H|[<-|[]]]; [now left|]. right. now split.
        -- intros [H|[_ H]]; [now left|]. injection H as <-. right. now left.
Qed.

Lemma garther_loop_strings (rs : list RuleMeta) (acc : list string) :
  NoDup acc ->
  Forall (fun r => account_typed r = true) rs ->
  exists acc',
    garther_loop rs (map VStr acc) = Ok (map VStr acc') /\ NoDup acc' /\
    forall s, In s acc' <->
              In s acc \/ exists r, In r rs /\ rule_sets r s.
Proof.
  intros Hnd Hrs. revert acc Hnd.
  induction Hrs as [|r rs Hr Hrs IH]; intros acc Hnd.
  - exists acc. split; [reflexivity|]. split; [exact Hnd|].
    intros s. split; [auto|]. intros [H|[r [[] _]]]. exact H.
  - unfold account_typed in Hr. apply andb_prop in Hr as [Hm Ht].
    cbn [garther_loop getattr].
    destruct (add_account_strings acc (method_account r) Hnd Hm)
      as [acc1 [E1 [N1 M1]]].
    rewrite E1. cbn [bind].
    destruct (add_account_strings acc1 (target_account r) N1 Ht)
      as [acc2 [E2 [N2 M2]]].
    rewrite E2. cbn [bind].
    destruct (IH acc2 N2) as [acc' [E [N M]]].
    exists acc'. split; [exact E|]. split; [exact N|].
    intros s. rewrite M, M2, M1. unfold rule_sets. cbn [In]. split.
    + intros [[[H|[H1 H2]]|[H1 H2]]|[r' [H1 H2]]]; eauto 8.
    + intros [H|[r' [[<-|H1] [H2 [H3|H3]]]]]; eauto 8.
Qed.

Lemma sorted_nodup_strict (l : list string) :
  StronglySorted (fun a b => String.leb a b = true) l -> NoDup l ->
  StronglySorted (fun a b => String.ltb a b = true) l.
Proof.
  induction 1 as [|x l Hl IH Hx]; intros Hnd; [constructor|].
  inversion Hnd as [|? ? Hnot Hnd']; subst.
  constructor; [now apply IH|].
  rewrite Forall_forall in Hx |- *. intros y Hy.
  apply string_leb_lt; [now apply Hx|]. intros ->. contradiction.
Qed.

(** C9: with default accounts and rule accounts that are strings (or, on a
    rule, absent), [garther_accounts] returns the account names in strictly
    ascending lexicographic order, hence sorted and without duplicate, and
    they are exactly the two defaults and the non-empty [method_account]
    and [target_account] of the rules. *)
Theorem garther_accounts_sorted_exact
    (self : Ruler) (dm dp : string) :
  py_getitem (config self) _DEFAULT_MINUS = Ok (VStr dm) ->
  py_getitem (config self) _DEFAULT_PLUS = Ok (VStr dp) ->
  Forall (fun r => account_typed r = true) (rules self) ->
  exists l,
    garther_accounts self = Ok (map VStr l) /\
    StronglySorted (fun a b => String.ltb a b = true) l /\
    NoDup l /\
    forall s,
      In s l <->
      s = dm \/ s = dp \/ exists r, In r (rules self) /\ rule_sets r s.
Proof.
  intros Hm Hp Hrs. unfold garther_accounts. rewrite Hm, Hp. cbn [bind].
  set (acc0 := if String.eqb dp dm then [dm] else [dm; dp]).
  assert (E0 : (s0 <- set_add [] (VStr dm) ;; set_add s0 (VStr dp))
               = Ok (map VStr acc0)).
  { unfold set_add, set_mem, acc0. cbn [hashable bind existsb app py_eq orb].
    now destruct (String.eqb dp dm). }
  assert (N0 : NoDup acc0).
  { unfold acc0. destruct (String.eqb dp dm) eqn:E.
    - repeat constructor. intros [].
    - apply String.eqb_neq in E. repeat constructor.
      + intros [H|[]]. congruence.
      + intros []. }
  assert (M0 : forall s, In s acc0 <-> s = dm \/ s = dp).
  { intros s. unfold acc0. destruct (String.eqb dp dm) eqn:E; cbn [In].
    - apply String.eqb_eq in E. subst dp. intuition congruence.
    - intuition congruence. }
  destruct (set_add [] (VStr dm)) as [s0|] eqn:Es0; cbn [bind] in E0 |- *;
    [|discriminate E0].
  rewrite E0. cbn [bind].
  destruct (garther_loop_strings (rules self) acc0 N0 Hrs)
    as [acc' [E [N M]]].
  rewrite E. cbn [bind]. rewrite py_sort_strings.
  exists (sort_by String.leb acc').
  pose proof (sort_by_perm string String.leb acc') as Hperm.
  assert (Hnd : NoDup (sort_by String.leb acc'))
    by exact (Permutation_NoDup Hperm N).
  split; [reflexivity|]. split; [|split; [exact Hnd|]].
  - apply sorted_nodup_strict; [|exact Hnd].
    apply sort_by_sorted; [apply String.leb_total|apply string_leb_trans].
  - intros s. rewrite <- or_assoc, <- (M0 s), <- M.
    split; intros H.
    + now apply (Permutation_in _ (Permutation_sym Hperm)).
    + now apply (Permutation_in _ Hperm).
Qed.

Lemma garther_accounts_sorted_exact_witness :
  exists l,
    garther_accounts test_ruler = Ok (map VStr l) /\
    StronglySorted (fun a b => String.ltb a b = true) l /\
    NoDup l /\
    forall s,
      In s l <->
      s = "Assets:FIXME" \/ s = "Expenses:FIXME" \/
      exists r, In r (rules test_ruler) /\ rule_sets r s.
Proof.
  apply (garther_accounts_sorted_exact
           test_ruler "Assets:FIXME" "Expenses:FIXME");
    [reflexivity|reflexivity|repeat constructor].
Defined.

Example garther_accounts_test_ruler :
  garther_accounts test_ruler =
  Ok [VStr "Assets:Bank:CCB"; VStr "Assets:FIXME"; VStr "Assets:Wechat";
      VStr "Expenses:FIXME"].
Proof. reflexivity. Qed.

(** The scenario of rule_test.py. *)
Example test_ruler_match :
  Ruler_init (Some test_doc) = Ok test_ruler /\
  exists ans,
    fst (match_ test_ruler [("payee", VStr "jim")] None) = Ok ans /\
    method_account ans = VStr "Assets:Bank:CCB" /\
    target_account ans = VStr "Assets:Wechat".
Proof. split; [reflexivity|]. eexists. repeat split; reflexivity. Qed.

(** The separator scenario: [{payee: "mike, jim", seperator: ","}]. *)
Example separator_rule_match :
  let rule := rule_of [(RULE_PAYEE, VStr "mike, jim");
                       (RULE_SEPERATOR, VStr ",")] in
  fst (_match rule [("payee", VStr "mike")] (Some identity)) = Ok true /\
  fst (_match rule [("payee", VStr "jim")] (Some identity)) = Ok true /\
  fst (_match rule [("payee", VStr "mike, jim")] (Some identity)) = Ok false.
Proof. repeat split; reflexivity. Qed.

(** * Further properties *)

(** ** [is_txn_method] and [check] *)

Lemma is_txn_method_loop_sum (r : RuleMeta) (ks : list field) (n : nat) :
  (forall k, In k ks -> truthy (getattr r k) = true ->
             field_eqb k RULE_TXN_METHOD || field_eqb k RULE_MINUS_ACCOUNT
             = true) ->
  is_txn_method_loop r ks n =
  Nat.eqb (n + list_sum (map (fun k => if truthy (getattr r k) then 1 else 0)
                             ks)) 2.
Proof.
  revert n. induction ks as [|k ks IH]; intros n H.
  - cbn [is_txn_method_loop map]. change (list_sum []) with 0.
    now rewrite Nat.add_0_r.
  - cbn [is_txn_method_loop map]. rewrite list_sum_cons.
    pose proof (H k (or_introl eq_refl)) as Hk.
    destruct (truthy (getattr r k)).
    + rewrite (Hk eq_refl), IH by (intros; apply H; [now right|assumption]).
      f_equal. lia.
    + rewrite IH by (intros; apply H; [now right|assumption]).
      f_equal.
Qed.

(** [is_txn_method] holds exactly for the rules whose [txn_method] and
    [method_account] are set, in the sense of truth values, and whose
    other fields are all unset in that sense ([None], but also the empty
    string, zero, an empty list). *)
Theorem is_txn_method_iff (r : RuleMeta) :
  is_txn_method r = true <->
  truthy (txn_method r) = true /\ truthy (method_account r) = true /\
  forall k,
    field_eqb k RULE_TXN_METHOD || field_eqb k RULE_MINUS_ACCOUNT = false ->
    truthy (getattr r k) = false.
Proof.
  split.
  - intros H. destruct (is_txn_method_accounts r H) as [H1 H2].
    split; [exact H2|]. split; [exact H1|].
    apply is_txn_method_loop_true in H as [H _].
    intros k Hk. destruct (truthy (getattr r k)) eqn:E; [|reflexivity].
    rewrite (H k (in_get_fields k) E) in Hk. discriminate Hk.
  - intros [H1 [H2 F]]. unfold is_txn_method.
    rewrite is_txn_method_loop_sum.
    + unfold get_fields. cbn [map getattr]. rewrite !list_sum_cons.
      change (list_sum []) with 0.
      pose proof (F RULE_PAYEE eq_refl) as F1.
      pose proof (F RULE_ITEM eq_refl) as F2.
      pose proof (F RULE_TXN_TYPE eq_refl) as F3.
      pose proof (F RULE_TXN_INOUT eq_refl) as F4.
      pose proof (F RULE_START_TIME eq_refl) as F5.
      pose proof (F RULE_END_TIME eq_refl) as F6.
      pose proof (F RULE_PLUS_ACCOUNT eq_refl) as F7.
      pose proof (F RULE_SEPERATOR eq_refl) as F8.
      pose proof (F RULE_TXN_STATUS eq_refl) as F9.
      pose proof (F RULE_TXN_META eq_refl) as F10.
      pose proof (F RULE_TXN_INPUT eq_refl) as F11.
      pose proof (F RULE_TXN_OUTPUT eq_refl) as F12.
      pose proof (F RULE_TXN_MASK eq_refl) as F13.
      pose proof (F RULE_TXN_EXCLUDE eq_refl) as F14.
      cbn [getattr] in F1, F2, F3, F4, F5, F6, F7, F8, F9, F10, F11, F12,
        F13, F14.
      rewrite F1, F2, F3, F4, F5, F6, F7, F8, F9, F10, F11, F12, F13, F14,
        H1, H2.
      reflexivity.
    + intros k _ Hk.
      destruct (field_eqb k RULE_TXN_METHOD
                || field_eqb k RULE_MINUS_ACCOUNT) eqn:E; [reflexivity|].
      rewrite (F k E) in Hk. discriminate Hk.
Qed.

Lemma check_loop_count (r : RuleMeta) (ks : list field) (c : nat) :
  check_loop r ks c = c + List.length (filter (counted r) ks).
Proof.
  revert c. induction ks as [|k ks IH]; intros c.
  - cbn [check_loop filter List.length]. lia.
  - cbn [check_loop filter]. unfold counted at 1.
    destruct (field_eqb k RULE_PLUS_ACCOUNT || field_eqb k RULE_MINUS_ACCOUNT).
    + cbn [negb andb]. apply IH.
    + cbn [negb andb]. destruct (is_none (getattr r k)).
      * rewrite IH. cbn [List.length]. lia.
      * apply IH.
Qed.

Lemma filter_and_length {A} (f g : A -> bool) (l : list A) :
  List.length (filter (fun x => f x && g x) l) <= List.length (filter f l) /\
  (List.length (filter (fun x => f x && g x) l) = List.length (filter f l)
   <-> forall x, In x l -> f x = true -> g x = true).
Proof.
  induction l as [|a l [IH1 IH2]]; cbn [filter List.length In].
  - split; [lia|]. split; [intros _ x []|reflexivity].
  - destruct (f a) eqn:Ef; cbn [andb].
    + destruct (g a) eqn:Eg; cbn [List.length].
      * split; [lia|]. split.
        -- intros H x [<-|Hx] Hf; [exact Eg|]. apply IH2; auto.
        -- intros H. f_equal. apply IH2. auto.
      * split; [lia|]. split; [lia|].
        intros H. specialize (H a (or_introl eq_refl) Ef). congruence.
    + split; [exact IH1|]. split.
      * intros H x [<-|Hx] Hf; [congruence|]. apply IH2; auto.
      * intros H. apply IH2. auto.
Qed.

Lemma check_false_spec (r : RuleMeta) :
  check r = false <->
  forall k, is_account k = false -> getattr r k = VNone.
Proof.
  unfold check. rewrite check_loop_count. cbn [Nat.add].
  change (List.length get_fields - 2) with 14.
  pose proof (filter_and_length
                (fun k => negb (field_eqb k RULE_PLUS_ACCOUNT
                                || field_eqb k RULE_MINUS_ACCOUNT))
                (fun k => is_none (getattr r k)) get_fields) as [_ H].
  change (List.length
            (filter (fun k => negb (field_eqb k RULE_PLUS_ACCOUNT
                                    || field_eqb k RULE_MINUS_ACCOUNT))
                    get_fields)) with 14 in H.
  fold (counted r) in H.
  destruct (Nat.eqb (List.length (filter (counted r) get_fields)) 14) eqn:E.
  - apply Nat.eqb_eq in E. split; [|reflexivity]. intros _ k Hk.
    assert (Hn : is_none (getattr r k) = true).
    { apply (proj1 H E k (in_get_fields k)).
      destruct k; try reflexivity; discriminate Hk. }
    destruct (getattr r k); try discriminate Hn. reflexivity.
  - apply Nat.eqb_neq in E. split; [discriminate|]. intros Hall.
    elim E. apply H. intros k _ Hk. rewrite Hall; [reflexivity|].
    destruct k; try reflexivity; discriminate Hk.
Qed.

(** [check] rejects a rule exactly when every field other than the two
    accounts is [None]; a field that holds an empty string or zero is
    enough to pass. *)
Theorem check_false_iff (r : RuleMeta) :
  check r = false <->
  forall k, is_account k = false -> getattr r k = VNone.
Proof. exact (check_false_spec r). Qed.

(** Every method rule passes [check]: the assertion of the first loop
    cannot fail on a rule that loop acts on. *)
Theorem method_rule_passes_check (r : RuleMeta) :
  is_txn_method r = true -> check r = true.
Proof.
  intros H. destruct (is_txn_method_accounts r H) as [_ Hm].
  destruct (check r) eqn:E; [reflexivity|].
  pose proof (proj1 (check_false_spec r) E RULE_TXN_METHOD eq_refl) as Hn.
  cbn [getattr] in Hn. rewrite Hn in Hm. discriminate Hm.
Qed.

Lemma method_rule_passes_check_witness :
  is_txn_method wechat_rule = true /\ check wechat_rule = true.
Proof.
  split; [reflexivity|]. apply (method_rule_passes_check wechat_rule).
  reflexivity.
Defined.

(** ** Construction *)

Lemma forallb_map_ext {A B} (f : B -> bool) (g : A -> bool) (h : A -> B)
    (l : list A) :
  (forall a, f (h a) = g a) -> forallb f (map h l) = forallb g l.
Proof.
  intros H. induction l as [|a l IH]; [reflexivity|].
  cbn [map forallb]. now rewrite H, IH.
Qed.

Lemma forallb_Exists_false {A} (f : A -> bool) (l : list A) :
  Exists (fun x => f x = false) l -> forallb f l = false.
Proof.
  induction 1 as [a l H|a l H IH]; cbn [forallb].
  - now rewrite H.
  - rewrite IH. apply andb_false_r.
Qed.

Lemma load_fields_dict (ks : list field) (c : dict value) (r : RuleMeta) :
  load_fields ks (VDict c) r =
  Ok (fold_left (fun r k =>
                   match dict_get c (field_name k) with
                   | Some v => setattr r k v
                   | None => r
                   end) ks r).
Proof.
  revert r. induction ks as [|k ks IH]; intros r; [reflexivity|].
  cbn [load_fields py_in py_getitem fold_left]. unfold dict_has, subscript.
  destruct (dict_get c (field_name k)); cbn [bind]; apply IH.
Qed.

Lemma fold_fields_getattr (c : dict value) (ks : list field) (r : RuleMeta)
    (k : field) :
  getattr (fold_left (fun r k =>
                        match dict_get c (field_name k) with
                        | Some v => setattr r k v
                        | None => r
                        end) ks r) k =
  if existsb (fun k0 => field_eqb k0 k) ks
  then match dict_get c (field_name k) with
       | Some v => v
       | None => getattr r k
       end
  else getattr r k.
Proof.
  revert r. induction ks as [|k0 ks IH]; intros r; [reflexivity|].
  cbn [fold_left existsb]. rewrite IH.
  destruct (field_eqb k0 k) eqn:E; cbn [orb].
  - apply field_eqb_eq in E. subst k0.
    destruct (dict_get c (field_name k)) as [v|].
    + rewrite getattr_setattr, field_eqb_refl. now destruct (existsb _ ks).
    + now destruct (existsb _ ks).
  - destruct (dict_get c (field_name k0)) as [v0|]; [|reflexivity].
    rewrite getattr_setattr, E. reflexivity.
Qed.

Lemma fold_fields_is_mask (c : dict value) (ks : list field) (r : RuleMeta) :
  is_mask (fold_left (fun r k =>
                        match dict_get c (field_name k) with
                        | Some v => setattr r k v
                        | None => r
                        end) ks r) = is_mask r.
Proof.
  revert r. induction ks as [|k0 ks IH]; intros r; [reflexivity|].
  cbn [fold_left]. rewrite IH.
  destruct (dict_get c (field_name k0)); [apply is_mask_setattr|reflexivity].
Qed.

Lemma existsb_field_eqb (k : field) :
  existsb (fun k0 => field_eqb k0 k) get_fields = true.
Proof. destruct k; reflexivity. Qed.

Lemma rule_of_entry_getattr (c : dict value) (k : field) :
  getattr (rule_of_entry c) k = lookup_field c k.
Proof.
  unfold rule_of_entry, lookup_field.
  rewrite fold_fields_getattr, existsb_field_eqb.
  destruct (dict_get c (field_name k)); [reflexivity|]. now destruct k.
Qed.

Lemma rule_of_entry_check (c : dict value) :
  check (rule_of_entry c) = entry_valid c.
Proof.
  unfold entry_valid.
  destruct (check (rule_of_entry c)) eqn:E.
  - symmetry. destruct (existsb _ get_fields) eqn:Ex; [reflexivity|].
    assert (H : check (rule_of_entry c) = false); [|congruence].
    apply check_false_spec. intros k Hk.
    rewrite rule_of_entry_getattr.
    assert (Hf : negb (is_account k) && negb (is_none (lookup_field c k))
                 = false).
    { destruct (negb (is_account k) && negb (is_none (lookup_field c k)))
        eqn:Ek; [|reflexivity].
      assert (Ht : existsb
                     (fun k0 => negb (is_account k0)
                                && negb (is_none (lookup_field c k0)))
                     get_fields = true).
      { apply existsb_exists. exists k. split; [apply in_get_fields|exact Ek]. }
      congruence. }
    rewrite Hk in Hf. cbn [negb andb] in Hf.
    destruct (lookup_field c k); try discriminate Hf. reflexivity.
  - symmetry. apply not_true_is_false. intros Ex.
    apply existsb_exists in Ex as [k [_ Hk]].
    apply andb_prop in Hk as [Hk1 Hk2]. apply negb_true_iff in Hk1, Hk2.
    pose proof (proj1 (check_false_spec _) E k Hk1) as Hn.
    rewrite rule_of_entry_getattr in Hn. rewrite Hn in Hk2.
    discriminate Hk2.
Qed.

Lemma convert_loop_dicts (cfgs : list (dict value)) :
  convert_loop (map VDict cfgs) = Ok (map rule_of_entry cfgs).
Proof.
  induction cfgs as [|c cfgs IH]; [reflexivity|].
  cbn [map convert_loop]. rewrite load_fields_dict. cbn [bind].
  rewrite IH. reflexivity.
Qed.

(** The constructor on a document whose [rules] are mappings: each entry
    becomes a rule that holds, for every recognised field name, the value
    the entry gives it and [None] otherwise (keys that are not field names
    are ignored), with [is_mask] unset; the engine is returned when every
    entry gives some field other than the two accounts a value other than
    [None], and [AssertionError] is raised otherwise. *)
Theorem Ruler_init_mappings (d : dict value) (cfgs : list (dict value)) :
  dict_get d "rules" = Some (VList (map VDict cfgs)) ->
  Ruler_init (Some (VDict d)) =
  (if forallb entry_valid cfgs
   then Ok (mkRuler (VDict d) (map rule_of_entry cfgs))
   else Raise AssertionError) /\
  forall c,
    is_mask (rule_of_entry c) = None /\
    forall k, getattr (rule_of_entry c) k = lookup_field c k.
Proof.
  intros H. split.
  - unfold Ruler_init, _convert_to_rules, py_in, py_getitem, dict_has,
      subscript.
    rewrite H. cbn [bind negb py_iter]. rewrite convert_loop_dicts.
    cbn [bind].
    now rewrite (forallb_map_ext check entry_valid rule_of_entry cfgs
                                 rule_of_entry_check).
  - intros c. split; [apply fold_fields_is_mask|].
    intros k. apply rule_of_entry_getattr.
Qed.

Lemma Ruler_init_mappings_witness :
  Ruler_init
    (Some (VDict [("rules",
                   VList (map VDict
                              [[("payee", VStr "mike"); ("txType", VStr "x")];
                               [("targetAccount", VStr "Expenses:Misc")]]))]))
  = Raise AssertionError.
Proof.
  exact (proj1 (Ruler_init_mappings
                  [("rules",
                    VList (map VDict
                               [[("payee", VStr "mike"); ("txType", VStr "x")];
                                [("targetAccount", VStr "Expenses:Misc")]]))]
                  [[("payee", VStr "mike"); ("txType", VStr "x")];
                   [("targetAccount", VStr "Expenses:Misc")]]
                  eq_refl)).
Defined.

Lemma load_fields_not_dict (ks : list field) (c : value) (r r' : RuleMeta) :
  is_dict c = false -> load_fields ks c r = Ok r' -> r' = r.
Proof.
  intros Hc. revert r. induction ks as [|k ks IH]; intros r.
  - cbn [load_fields]. now intros [= <-].
  - cbn [load_fields].
    destruct (py_in (field_name k) c) as [[|]|]; cbn [bind];
      try discriminate; [|apply IH].
    destruct c; try discriminate Hc; cbn [py_getitem bind]; discriminate.
Qed.

Lemma check_RuleMeta_init : check RuleMeta_init = false.
Proof. reflexivity. Qed.

Lemma convert_loop_not_dict (cfgs : list value) (rs : list RuleMeta) :
  Exists (fun c => is_dict c = false) cfgs ->
  convert_loop cfgs = Ok rs ->
  Exists (fun r => check r = false) rs.
Proof.
  intros H. revert rs. induction H as [c cfgs Hc|c cfgs H IH]; intros rs;
    cbn [convert_loop];
    destruct (load_fields get_fields c RuleMeta_init) as [r|] eqn:E;
    cbn [bind]; try discriminate;
    destruct (convert_loop cfgs) as [rs'|]; cbn [bind]; try discriminate;
    intros [= <-].
  - apply Exists_cons_hd.
    rewrite (load_fields_not_dict _ _ _ _ Hc E). exact check_RuleMeta_init.
  - apply Exists_cons_tl. now apply IH.
Qed.

(** An entry of the [rules] list that is not a mapping (a string, a
    number, a list, nothing) never gives an engine: the constructor
    raises. *)
Theorem Ruler_init_entry_not_mapping (d : dict value) (cfgs : list value) :
  dict_get d "rules" = Some (VList cfgs) ->
  Exists (fun c => is_dict c = false) cfgs ->
  exists e, Ruler_init (Some (VDict d)) = Raise e.
Proof.
  intros H Hex.
  unfold Ruler_init, _convert_to_rules, py_in, py_getitem, dict_has,
    subscript.
  rewrite H. cbn [bind negb py_iter].
  destruct (convert_loop cfgs) as [rs|e] eqn:E; cbn [bind]; [|now eexists].
  rewrite (forallb_Exists_false check rs (convert_loop_not_dict _ _ Hex E)).
  now eexists.
Qed.

Lemma Ruler_init_entry_not_mapping_witness :
  exists e,
    Ruler_init (Some (VDict [("rules",
                              VList [VDict [("payee", VStr "mike")];
                                     VStr "payee: jim"])]))
    = Raise e.
Proof.
  apply (Ruler_init_entry_not_mapping
           [("rules", VList [VDict [("payee", VStr "mike")];
                             VStr "payee: jim"])]
           [VDict [("payee", VStr "mike")]; VStr "payee: jim"] eq_refl).
  apply Exists_cons_tl, Exists_cons_hd. reflexivity.
Defined.

(** The [rules] key: without it the constructor raises the exception of
    line 122; an empty value ([rules:] with nothing after it, which YAML
    reads as [None]) raises [TypeError] at the loop; an empty list gives an
    engine without rules. *)
Theorem Ruler_init_rules_key (d : dict value) :
  (dict_get d "rules" = None ->
   Ruler_init (Some (VDict d)) = Raise PyException) /\
  (dict_get d "rules" = Some VNone ->
   Ruler_init (Some (VDict d)) = Raise TypeError) /\
  (dict_get d "rules" = Some (VList []) ->
   Ruler_init (Some (VDict d)) = Ok (mkRuler (VDict d) [])).
Proof.
  unfold Ruler_init, _convert_to_rules, py_in, py_getitem, dict_has,
    subscript.
  repeat split; intros H; rewrite H; reflexivity.
Qed.

(** ** The exceptions of [match] *)

Lemma scan_values_raise mask ex v vals fc m e :
  fst (scan_values mask ex v vals fc m) = Raise e -> e = TypeError.
Proof.
  revert fc m. induction vals as [|val rest IH]; intros fc m;
    cbn [scan_values]; [discriminate|].
  destruct v; try apply IH. destruct val; try apply IH.
  destruct (contains _ _); [|apply IH].
  destruct mask; [|apply IH].
  destruct (truthy ex); [|apply IH].
  destruct ex; try apply IH; cbn [fst]; congruence.
Qed.

Lemma scan_meta_raise mask ex meta vals fc m e :
  fst (scan_meta mask ex meta vals fc m) = Raise e -> e = TypeError.
Proof.
  revert fc m. induction meta as [|[key v] meta IH]; intros fc m;
    cbn [scan_meta]; [discriminate|].
  destruct (scan_values mask ex v vals fc m) as [[fc'|e'] m'] eqn:E;
    [apply IH|].
  cbn [fst]. intros [= <-].
  apply (scan_values_raise mask ex v vals fc m). now rewrite E.
Qed.

Lemma equal_values_raise meta key vals e :
  equal_values meta key vals = Raise e -> e = KeyError.
Proof.
  induction vals as [|v rest IH]; cbn [equal_values]; [discriminate|].
  destruct key as [s|]; [|exact IH].
  unfold subscript. destruct (dict_get meta s) as [x|]; cbn [bind];
    [|congruence].
  destruct (py_eq v x); [discriminate|exact IH].
Qed.

Lemma candidates_raise r v e :
  candidates r v = Raise e -> e = TypeError \/ e = AttributeError.
Proof.
  unfold candidates. destruct (truthy (seperator r)) eqn:T; [|discriminate].
  destruct v; try (intros [= <-]; now auto).
  destruct (seperator r) as [| | |sep| |]; try (intros [= <-]; now auto).
  unfold split. destruct (String.eqb sep "") eqn:E.
  - apply String.eqb_eq in E. subst sep. discriminate T.
  - cbn [bind]. discriminate.
Qed.

Lemma match_loop_raise meta func_map ks r e :
  fst (_match_loop ks r meta func_map) = Raise e ->
  e = KeyError \/ e = TypeError \/ e = AttributeError.
Proof.
  revert r. induction ks as [|k ks IH]; intros r; cbn [_match_loop];
    [discriminate|].
  destruct (field_eqb k RULE_MINUS_ACCOUNT || field_eqb k RULE_PLUS_ACCOUNT
            || field_eqb k RULE_SEPERATOR || field_eqb k RULE_TXN_EXCLUDE);
    [apply IH|].
  destruct (is_none (getattr r k)); [apply IH|].
  destruct (candidates r (getattr r k)) as [vals|e'] eqn:C.
  - destruct (field_eqb k RULE_TXN_META || field_eqb k RULE_TXN_MASK).
    + destruct (scan_meta _ _ meta vals false (is_mask r))
        as [[[|]|e'] m] eqn:S; [apply IH|discriminate|].
      cbn [fst]. intros [= <-]. right. left.
      eapply scan_meta_raise. rewrite S. reflexivity.
    + destruct (equal_values meta _ vals) as [[|]|e'] eqn:Q;
        [apply IH|discriminate|].
      cbn [fst]. intros [= <-]. left. exact (equal_values_raise _ _ _ _ Q).
  - cbn [fst]. intros [= <-]. right. exact (candidates_raise _ _ _ C).
Qed.

Lemma match_raise meta func_map r e :
  fst (_match r meta func_map) = Raise e ->
  e = KeyError \/ e = TypeError \/ e = AttributeError.
Proof. unfold _match. exact (match_loop_raise meta func_map get_fields r e). Qed.

Lemma method_test_raise meta func_map r e :
  method_test r meta func_map = Raise e -> e = KeyError.
Proof.
  unfold method_test. destruct (resolved func_map _) as [s|]; [|discriminate].
  unfold subscript. destruct (dict_get meta s); cbn [bind]; congruence.
Qed.

Lemma pass1_raise meta func_map rs ans e :
  Forall (fun r => check r = true) rs ->
  pass1 rs meta func_map ans = Raise e -> e = KeyError.
Proof.
  intros H. revert ans. induction H as [|r rs Hr Hrs IH]; intros ans;
    [discriminate|].
  rewrite pass1_cons, Hr. cbn [negb].
  destruct (is_txn_method r); [|apply IH].
  destruct (method_test r meta func_map) as [b|e'] eqn:T; cbn [bind];
    [apply IH|].
  intros [= <-]. exact (method_test_raise _ _ _ _ T).
Qed.

Lemma pass2_raise meta func_map rs a e :
  Forall (fun r => check r = true) rs ->
  fst (pass2 rs meta func_map a) = Raised e ->
  e = KeyError \/ e = TypeError \/ e = AttributeError.
Proof.
  intros H. revert a. induction H as [|r rs Hr Hrs IH]; intros a;
    [discriminate|].
  rewrite pass2_fst_cons. unfold pass2_step.
  destruct (is_txn_method r); [apply IH|].
  rewrite Hr. cbn [negb].
  destruct (fst (_match r meta func_map)) as [[|]|e'] eqn:M; [|apply IH|].
  - destruct (mask_set _); [discriminate|apply IH].
  - intros [= <-]. exact (match_raise _ _ _ _ M).
Qed.

Lemma initial_ans_raise cfg e :
  initial_ans cfg = Raise e ->
  e = KeyError \/ e = TypeError \/ e = AssertionError.
Proof.
  unfold initial_ans, py_getitem, subscript, assert_accounts.
  destruct cfg as [| | | | |d]; try (intros [= <-]; now auto).
  destruct (dict_get d _DEFAULT_MINUS); cbn [bind];
    [|intros [= <-]; now auto].
  destruct (dict_get d _DEFAULT_PLUS); cbn [bind];
    [|intros [= <-]; now auto].
  destruct (truthy _); [destruct (truthy _)|];
    try discriminate; intros [= <-]; auto.
Qed.

(** What [match] can raise on an engine built by the constructor (and used
    for any number of calls): [KeyError], [TypeError], [AttributeError], or
    the [AssertionError] of lines 201-202 on the default accounts.  The
    assertions inside and after the two loops never fail. *)
Theorem match_exceptions
    (self : Ruler) (meta : Meta) (func_map : option resolver) (e : exn) :
  reachable self ->
  fst (match_ self meta func_map) = Raise e ->
  (e = KeyError \/ e = TypeError \/ e = AttributeError) \/
  (e = AssertionError /\ initial_ans (config self) = Raise AssertionError).
Proof.
  intros R. pose proof (reachable_check self R) as Hc.
  destruct (initial_ans (config self)) as [a0|e0] eqn:I.
  - destruct (pass1 (rules self) meta (default_resolver func_map) a0)
      as [a1|e1] eqn:P1.
    + rewrite (match_fst meta func_map self a0 a1 I P1).
      destruct (fst (pass2 (rules self) meta (default_resolver func_map) a1))
        as [a2|a2|e2] eqn:P2; cbn [outcome_result]; try discriminate.
      intros [= <-]. left. exact (pass2_raise _ _ _ _ _ Hc P2).
    + rewrite (match_early_raise meta func_map self e1).
      * cbn [fst]. intros [= <-]. left. left.
        exact (pass1_raise _ _ _ _ _ Hc P1).
      * rewrite I. cbn [bind]. rewrite P1. reflexivity.
  - rewrite (match_early_raise meta func_map self e0).
    + cbn [fst]. intros [= <-].
      destruct (initial_ans_raise _ _ I) as [-> | [-> | ->]]; auto.
    + rewrite I. reflexivity.
Qed.

Lemma match_exceptions_witness :
  reachable test_ruler /\
  fst (match_ test_ruler [("item", VStr "tea")] None) = Raise KeyError /\
  ((KeyError = KeyError \/ KeyError = TypeError \/ KeyError = AttributeError)
   \/ (KeyError = AssertionError /\
       initial_ans (config test_ruler) = Raise AssertionError)).
Proof.
  assert (R : reachable test_ruler)
    by (apply (reach_init (Some test_doc)); reflexivity).
  split; [exact R|]. split; [reflexivity|].
  exact (match_exceptions test_ruler [("item", VStr "tea")] None KeyError R
                          eq_refl).
Defined.

(** ** [garther_accounts] *)

Lemma set_mem_raise s v e : set_mem s v = Raise e -> e = TypeError.
Proof. unfold set_mem. destruct (hashable v); congruence. Qed.

Lemma set_add_raise s v e : set_add s v = Raise e -> e = TypeError.
Proof.
  unfold set_add. destruct (set_mem s v) as [b|e'] eqn:E; cbn [bind];
    [discriminate|].
  intros [= <-]. exact (set_mem_raise _ _ _ E).
Qed.

Lemma add_account_raise ans v e :
  add_account ans v = Raise e -> e = TypeError.
Proof.
  unfold add_account. destruct (truthy v); [|discriminate].
  destruct (set_mem ans v) as [b|e'] eqn:E; cbn [bind].
  - destruct b; cbn [negb]; [discriminate|apply set_add_raise].
  - intros [= <-]. exact (set_mem_raise _ _ _ E).
Qed.

Lemma add_account_unhashable ans v :
  truthy v = true -> hashable v = false ->
  add_account ans v = Raise TypeError.
Proof.
  intros T H. unfold add_account, set_mem. now rewrite T, H.
Qed.

Lemma garther_loop_raise rs ans e :
  garther_loop rs ans = Raise e -> e = TypeError.
Proof.
  revert ans. induction rs as [|r rs IH]; intros ans; cbn [garther_loop];
    [discriminate|].
  destruct (add_account ans _) as [a1|e1] eqn:E1; cbn [bind].
  - destruct (add_account a1 _) as [a2|e2] eqn:E2; cbn [bind]; [apply IH|].
    intros [= <-]. exact (add_account_raise _ _ _ E2).
  - intros [= <-]. exact (add_account_raise _ _ _ E1).
Qed.

Lemma garther_loop_unhashable rs ans :
  Exists (fun r =>
            (truthy (method_account r) && negb (hashable (method_account r)))
            || (truthy (target_account r)
                && negb (hashable (target_account r))) = true) rs ->
  garther_loop rs ans = Raise TypeError.
Proof.
  intros H. revert ans. induction H as [r rs Hr|r rs H IH]; intros ans;
    cbn [garther_loop getattr].
  - destruct (add_account ans (method_account r)) as [a1|e1] eqn:E1;
      cbn [bind].
    + apply orb_true_iff in Hr as [Hr|Hr];
        apply andb_prop in Hr as [T U]; apply negb_true_iff in U.
      * rewrite (add_account_unhashable ans _ T U) in E1. discriminate E1.
      * now rewrite (add_account_unhashable a1 _ T U).
    + now rewrite (add_account_raise _ _ _ E1).
  - destruct (add_account ans (method_account r)) as [a1|e1] eqn:E1;
      cbn [bind].
    + destruct (add_account a1 (target_account r)) as [a2|e2] eqn:E2;
        cbn [bind]; [apply IH|].
      now rewrite (add_account_raise _ _ _ E2).
    + now rewrite (add_account_raise _ _ _ E1).
Qed.

(** A rule whose method or target account is a non-empty list or mapping
    (as in [target_account: [checking, tax]]) makes [garther_accounts] raise
    [TypeError]: the account is looked up in a set.  An empty list is
    skipped. *)
Theorem garther_accounts_unhashable (self : Ruler) (dm dp : value) :
  py_getitem (config self) _DEFAULT_MINUS = Ok dm ->
  py_getitem (config self) _DEFAULT_PLUS = Ok dp ->
  Exists (fun r =>
            (truthy (method_account r) && negb (hashable (method_account r)))
            || (truthy (target_account r)
                && negb (hashable (target_account r))) = true)
         (rules self) ->
  garther_accounts self = Raise TypeError.
Proof.
  intros Hm Hp Hex. unfold garther_accounts. rewrite Hm, Hp. cbn [bind].
  destruct (set_add [] dm) as [s0|e0] eqn:E0; cbn [bind];
    [|now rewrite (set_add_raise _ _ _ E0)].
  destruct (set_add s0 dp) as [s1|e1] eqn:E1; cbn [bind];
    [|now rewrite (set_add_raise _ _ _ E1)].
  now rewrite (garther_loop_unhashable _ s1 Hex).
Qed.

Lemma garther_accounts_unhashable_witness :
  garther_accounts
    (mkRuler test_doc
             [mike_rule;
              rule_of [(RULE_PAYEE, VStr "jim");
                       (RULE_PLUS_ACCOUNT,
                        VList [VStr "Assets:Checking"; VStr "Expenses:Tax"])]])
  = Raise TypeError.
Proof.
  apply (garther_accounts_unhashable
           (mkRuler test_doc
                    [mike_rule;
                     rule_of [(RULE_PAYEE, VStr "jim");
                              (RULE_PLUS_ACCOUNT,
                               VList [VStr "Assets:Checking";
                                      VStr "Expenses:Tax"])]])
           (VStr "Assets:FIXME") (VStr "Expenses:FIXME"));
    [reflexivity|reflexivity|].
  apply Exists_cons_tl, Exists_cons_hd. reflexivity.
Defined.

Lemma garther_loop_same_fields rs rs' ans :
  Forall2 same_fields rs rs' -> garther_loop rs' ans = garther_loop rs ans.
Proof.
  intros H. revert ans. induction H as [|r r' rs rs' Hr Hrs IH]; intros ans;
    [reflexivity|].
  cbn [garther_loop].
  rewrite (same_fields_getattr r r' RULE_MINUS_ACCOUNT Hr).
  rewrite (same_fields_getattr r r' RULE_PLUS_ACCOUNT Hr).
  destruct (add_account ans _); cbn [bind]; [|reflexivity].
  destruct (add_account _ _); cbn [bind]; [apply IH|reflexivity].
Qed.

(** A call of [match], whatever it returns or raises, leaves
    [garther_accounts] as it was: the accounts of the stored rules and the
    configuration are not touched. *)
Theorem garther_accounts_after_match
    (self : Ruler) (meta : Meta) (func_map : option resolver) :
  garther_accounts (snd (match_ self meta func_map)) = garther_accounts self.
Proof.
  destruct (match_frame_rules meta func_map self) as [Hc [Hr _]].
  unfold garther_accounts. rewrite Hc.
  destruct (py_getitem (config self) _DEFAULT_MINUS); cbn [bind];
    [|reflexivity].
  destruct (py_getitem (config self) _DEFAULT_PLUS); cbn [bind];
    [|reflexivity].
  destruct (set_add [] _); cbn [bind]; [|reflexivity].
  destruct (set_add _ _); cbn [bind]; [|reflexivity].
  now rewrite (garther_loop_same_fields _ _ _ Hr).
Qed.

(** ** [_match] field by field *)

Lemma scan_values_fst mask ex v vals fc m :
  negb (truthy ex) || is_str ex = true ->
  fst (scan_values mask ex v vals fc m) =
  Ok (fc || existsb (fun val => value_hit val v) vals).
Proof.
  intros Hex. revert fc m.
  induction vals as [|val rest IH]; intros fc m; cbn [scan_values existsb].
  - now rewrite orb_false_r.
  - unfold value_hit at 1.
    destruct v; try apply IH. destruct val; try apply IH.
    destruct (contains _ _); [|apply IH].
    rewrite orb_true_l, orb_true_r.
    destruct mask; [|now rewrite IH].
    destruct (truthy ex) eqn:T; [|now rewrite IH].
    destruct ex; try discriminate Hex; try discriminate T. now rewrite IH.
Qed.

Lemma scan_meta_fst mask ex meta vals fc m :
  negb (truthy ex) || is_str ex = true ->
  fst (scan_meta mask ex meta vals fc m) =
  Ok (fc || existsb (fun kv => existsb (fun val => value_hit val (snd kv))
                                       vals) meta).
Proof.
  intros Hex. revert fc m.
  induction meta as [|[key v] meta IH]; intros fc m;
    cbn [scan_meta existsb snd].
  - now rewrite orb_false_r.
  - pose proof (scan_values_fst mask ex v vals fc m Hex) as H.
    destruct (scan_values mask ex v vals fc m) as [fc' m'].
    cbn [fst] in H. subst fc'. rewrite IH. now rewrite orb_assoc.
Qed.

Lemma equal_values_fst meta s x vals :
  dict_get meta s = Some x ->
  equal_values meta (Some s) vals = Ok (existsb (fun v => py_eq v x) vals).
Proof.
  intros H. induction vals as [|v rest IH]; cbn [equal_values existsb];
    [reflexivity|].
  unfold subscript. rewrite H. cbn [bind].
  destruct (py_eq v x); [reflexivity|exact IH].
Qed.

Lemma equal_values_none meta vals : equal_values meta None vals = Ok false.
Proof. induction vals as [|v rest IH]; cbn [equal_values]; auto. Qed.

Lemma field_passes_set_is_mask r m meta func_map k :
  field_passes (set_is_mask r m) meta func_map k =
  field_passes r meta func_map k.
Proof. destruct r; reflexivity. Qed.

Lemma forallb_ext_all {A} (f g : A -> bool) (l : list A) :
  (forall a, f a = g a) -> forallb f l = forallb g l.
Proof.
  intros H. induction l as [|a l IH]; [reflexivity|].
  cbn [forallb]. now rewrite H, IH.
Qed.

Lemma well_typed_exclude r :
  well_typed r = true ->
  negb (truthy (getattr r RULE_TXN_EXCLUDE))
  || is_str (getattr r RULE_TXN_EXCLUDE) = true.
Proof.
  unfold well_typed. intros H. apply andb_prop in H as [_ H]. exact H.
Qed.

Lemma match_loop_passes meta func_map ks r :
  keys_present meta func_map = true ->
  well_typed r = true ->
  fst (_match_loop ks r meta func_map) =
  Ok (forallb (field_passes r meta func_map) ks).
Proof.
  intros K. revert r. induction ks as [|k ks IH]; intros r W;
    cbn [_match_loop forallb]; [reflexivity|].
  unfold field_passes at 1.
  destruct (field_eqb k RULE_MINUS_ACCOUNT || field_eqb k RULE_PLUS_ACCOUNT
            || field_eqb k RULE_SEPERATOR || field_eqb k RULE_TXN_EXCLUDE);
    [now apply IH|].
  destruct (is_none (getattr r k)) eqn:N; [now apply IH|].
  destruct (candidates_total r k W N) as [vals C].
  unfold candidate_list. rewrite C.
  destruct (field_eqb k RULE_TXN_META || field_eqb k RULE_TXN_MASK).
  - pose proof (scan_meta_fst (field_eqb k RULE_TXN_MASK)
                              (getattr r RULE_TXN_EXCLUDE) meta vals false
                              (is_mask r) (well_typed_exclude r W)) as H.
    destruct (scan_meta _ _ meta vals false (is_mask r)) as [fc m].
    cbn [fst] in H. subst fc. cbn [orb].
    destruct (existsb _ meta); [|reflexivity].
    rewrite IH by now rewrite well_typed_set_is_mask.
    cbn [andb]. f_equal. apply forallb_ext_all.
    intros k'. apply field_passes_set_is_mask.
  - destruct (resolved func_map (field_name k)) as [s|] eqn:Rs.
    + pose proof (resolved_key_present meta func_map K k s Rs) as D.
      unfold dict_has in D.
      destruct (dict_get meta s) as [x|] eqn:G; [|discriminate D].
      rewrite (equal_values_fst meta s x vals G).
      destruct (existsb _ vals); [now apply IH|reflexivity].
    + rewrite equal_values_none. reflexivity.
Qed.

(** [_match] returns, and a rule matches exactly when every field passes:
    the answer is the conjunction over the fields, whatever their order, for
    a rule whose values have the types the code relies on and a record that
    has every key the resolver gives. *)
Theorem match_is_conjunction
    (r : RuleMeta) (meta : Meta) (func_map : option resolver) :
  well_typed r = true ->
  keys_present meta func_map = true ->
  fst (_match r meta func_map) =
  Ok (forallb (field_passes r meta func_map) get_fields).
Proof.
  unfold _match. intros W K.
  exact (match_loop_passes meta func_map get_fields r K W).
Qed.

Lemma match_is_conjunction_witness :
  well_typed mike_rule = true /\
  keys_present [("Counterparty", VStr "mike"); ("memo", VStr "tea")]
               (Some payee_only) = true /\
  fst (_match mike_rule [("Counterparty", VStr "mike"); ("memo", VStr "tea")]
              (Some payee_only)) = Ok true.
Proof.
  split; [reflexivity|]. split; [reflexivity|].
  exact (match_is_conjunction
           mike_rule [("Counterparty", VStr "mike"); ("memo", VStr "tea")]
           (Some payee_only) eq_refl eq_refl).
Defined.

(** ** Masked results *)

Lemma match_masked_rule meta func_map r :
  mask_wf r ->
  mask_set (is_mask (snd (_match r meta func_map))) = true ->
  is_none (txn_mask r) = false.
Proof.
  intros W M. destruct (is_none (txn_mask r)) eqn:N; [|reflexivity].
  pose proof (match_mask_wf meta func_map r W) as W'. unfold mask_wf in W'.
  rewrite (same_fields_txn_mask _ _ (match_frame meta func_map r)) in W'.
  rewrite (W' N) in M. discriminate M.
Qed.

Lemma pass2_masked meta func_map rs a :
  Forall mask_wf rs ->
  mask_set (is_mask a) = false ->
  match fst (pass2 rs meta func_map a) with
  | Stop a' =>
      is_mask a' = Some true /\
      Exists (fun r => is_txn_method r = false /\
                       is_none (txn_mask r) = false /\
                       fst (_match r meta func_map) = Ok true) rs
  | Next a' => mask_set (is_mask a') = false
  | Raised _ => True
  end.
Proof.
  intros H. revert a. induction H as [|r rs Wr Wrs IH]; intros a Ha;
    [exact Ha|].
  rewrite pass2_fst_cons. unfold pass2_step.
  destruct (is_txn_method r) eqn:Tm.
  - specialize (IH a Ha). destruct (fst (pass2 rs meta func_map a)); auto.
    destruct IH as [I1 I2]. split; [exact I1|now apply Exists_cons_tl].
  - destruct (check r); cbn [negb]; [|exact I].
    destruct (fst (_match r meta func_map)) as [[|]|e] eqn:M; [| |exact I].
    + destruct (mask_set (is_mask (snd (_match r meta func_map)))) eqn:Ms.
      * split.
        -- rewrite is_mask_set_is_mask. now apply mask_set_true.
        -- apply Exists_cons_hd. split; [exact Tm|]. split; [|exact M].
           exact (match_masked_rule meta func_map r Wr Ms).
      * match goal with
        | |- match fst (pass2 rs meta func_map ?b) with _ => _ end =>
            assert (Hb : mask_set (is_mask b) = false)
              by (now rewrite apply_rule_is_mask, is_mask_set_is_mask);
            specialize (IH b Hb);
            destruct (fst (pass2 rs meta func_map b)); auto
        end.
        destruct IH as [I1 I2]. split; [exact I1|now apply Exists_cons_tl].
    + specialize (IH a Ha). destruct (fst (pass2 rs meta func_map a)); auto.
      destruct IH as [I1 I2]. split; [exact I1|now apply Exists_cons_tl].
Qed.

Lemma initial_ans_is_mask cfg a0 :
  initial_ans cfg = Ok a0 -> is_mask a0 = None.
Proof.
  unfold initial_ans.
  destruct (py_getitem cfg _DEFAULT_MINUS) as [dm|]; cbn [bind];
    [|discriminate].
  destruct (py_getitem cfg _DEFAULT_PLUS) as [dp|]; cbn [bind];
    [|discriminate].
  intros H. apply assert_accounts_inv in H as [-> _].
  now rewrite !is_mask_setattr.
Qed.

(** A result that is masked comes from a rule with a [txn_mask]: on an
    engine built by the constructor, when [match] returns a result whose
    [is_mask] is true, some rule that is not a method rule has [txn_mask]
    set and matches the record.  Rules without [txn_mask] never mask. *)
Theorem masked_result_has_mask_rule
    (self : Ruler) (meta : Meta) (func_map : option resolver)
    (ans : RuleMeta) :
  reachable self ->
  fst (match_ self meta func_map) = Ok ans ->
  mask_set (is_mask ans) = true ->
  is_mask ans = Some true /\
  Exists (fun r => is_txn_method r = false /\
                   is_none (txn_mask r) = false /\
                   fst (_match r meta (default_resolver func_map)) = Ok true)
         (rules self).
Proof.
  intros R. pose proof (reachable_mask_wf self R) as W.
  destruct (initial_ans (config self)) as [a0|e0] eqn:I.
  - destruct (pass1 (rules self) meta (default_resolver func_map) a0)
      as [a1|e1] eqn:P1.
    + rewrite (match_fst meta func_map self a0 a1 I P1).
      assert (Ha1 : mask_set (is_mask a1) = false).
      { destruct (pass1_frame _ _ _ _ _ P1) as [E _].
        rewrite E, is_mask_setattr, (initial_ans_is_mask _ _ I).
        reflexivity. }
      pose proof (pass2_masked meta (default_resolver func_map) (rules self)
                               a1 W Ha1) as H.
      destruct (fst (pass2 (rules self) meta (default_resolver func_map) a1))
        as [a2|a2|e2]; cbn [outcome_result]; intros [= <-] Hm.
      * rewrite H in Hm. discriminate Hm.
      * exact H.
    + rewrite (match_early_raise meta func_map self e1); [discriminate|].
      rewrite I. cbn [bind]. rewrite P1. reflexivity.
  - rewrite (match_early_raise meta func_map self e0); [discriminate|].
    rewrite I. reflexivity.
Qed.

Lemma masked_result_has_mask_rule_witness :
  reachable foo_ruler /\
  exists ans,
    fst (match_ foo_ruler [("memo", VStr "foobaz")] None) = Ok ans /\
    is_mask ans = Some true /\
    Exists (fun r => is_txn_method r = false /\
                     is_none (txn_mask r) = false /\
                     fst (_match r [("memo", VStr "foobaz")]
                                 (default_resolver None)) = Ok true)
           (rules foo_ruler).
Proof.
  assert (R : reachable foo_ruler)
    by (apply (reach_init (Some foo_doc)); reflexivity).
  split; [exact R|].
  exists (set_is_mask fixme_ans (Some true)).
  split; [reflexivity|].
  exact (masked_result_has_mask_rule
           foo_ruler [("memo", VStr "foobaz")] None
           (set_is_mask fixme_ans (Some true)) R eq_refl eq_refl).
Defined.

(** ** The order of method rules and other rules *)

(** Two rule lists that pass [check], with the same method rules in the
    same order and the same other rules in the same order, give the same
    result: where the method rules stand among the others is of no
    consequence. *)
Theorem match_rule_order
    (cfg : value) (rs1 rs2 : list RuleMeta) (meta : Meta)
    (func_map : option resolver) :
  Forall (fun r => check r = true) rs1 ->
  Forall (fun r => check r = true) rs2 ->
  filter is_txn_method rs1 = filter is_txn_method rs2 ->
  filter (fun r => negb (is_txn_method r)) rs1 =
  filter (fun r => negb (is_txn_method r)) rs2 ->
  fst (match_ (mkRuler cfg rs1) meta func_map) =
  fst (match_ (mkRuler cfg rs2) meta func_map).
Proof.
  intros C1 C2 F1 F2.
  destruct (initial_ans cfg) as [a0|e0] eqn:I.
  - assert (P : pass1 rs1 meta (default_resolver func_map) a0 =
                pass1 rs2 meta (default_resolver func_map) a0).
    { rewrite (pass1_filter _ _ rs1 a0 C1), (pass1_filter _ _ rs2 a0 C2).
      now rewrite F1. }
    destruct (pass1 rs2 meta (default_resolver func_map) a0) as [a1|e1]
      eqn:P2.
    + rewrite (match_fst meta func_map (mkRuler cfg rs1) a0 a1 I P).
      rewrite (match_fst meta func_map (mkRuler cfg rs2) a0 a1 I P2).
      cbn [rules].
      rewrite (pass2_filter _ _ rs1 a1), (pass2_filter _ _ rs2 a1).
      now rewrite F2.
    + rewrite (match_early_raise meta func_map (mkRuler cfg rs1) e1).
      * rewrite (match_early_raise meta func_map (mkRuler cfg rs2) e1);
          [reflexivity|].
        cbn [config rules]. rewrite I. cbn [bind]. rewrite P2. reflexivity.
      * cbn [config rules]. rewrite I. cbn [bind]. rewrite P. reflexivity.
  - rewrite (match_early_raise meta func_map (mkRuler cfg rs1) e0).
    + rewrite (match_early_raise meta func_map (mkRuler cfg rs2) e0);
        [reflexivity|].
      cbn [config]. rewrite I. reflexivity.
    + cbn [config]. rewrite I. reflexivity.
Qed.

Lemma match_rule_order_witness :
  fst (match_ (mkRuler fixme_cfg [wechat_rule; jim_rule; mike_rule])
              [("payee", VStr "jim"); ("txn_method", VStr "wechat")] None) =
  fst (match_ (mkRuler fixme_cfg [jim_rule; mike_rule; wechat_rule])
              [("payee", VStr "jim"); ("txn_method", VStr "wechat")] None).
Proof.
  apply (match_rule_order fixme_cfg [wechat_rule; jim_rule; mike_rule]
                          [jim_rule; mike_rule; wechat_rule]);
    try reflexivity; repeat constructor.
Defined.

(** ** Rules without a predicate *)

Lemma match_loop_no_predicate meta func_map ks r :
  (forall k,
      field_eqb k RULE_MINUS_ACCOUNT || field_eqb k RULE_PLUS_ACCOUNT
      || field_eqb k RULE_SEPERATOR || field_eqb k RULE_TXN_EXCLUDE = false ->
      getattr r k = VNone) ->
  _match_loop ks r meta func_map = (Ok true, r).
Proof.
  intros H. induction ks as [|k ks IH]; cbn [_match_loop]; [reflexivity|].
  destruct (field_eqb k RULE_MINUS_ACCOUNT || field_eqb k RULE_PLUS_ACCOUNT
            || field_eqb k RULE_SEPERATOR || field_eqb k RULE_TXN_EXCLUDE)
    eqn:E; [exact IH|].
  rewrite (H k E). exact IH.
Qed.

Lemma match_no_predicate meta func_map r :
  (forall k,
      field_eqb k RULE_MINUS_ACCOUNT || field_eqb k RULE_PLUS_ACCOUNT
      || field_eqb k RULE_SEPERATOR || field_eqb k RULE_TXN_EXCLUDE = false ->
      getattr r k = VNone) ->
  _match r meta func_map = (Ok true, r).
Proof.
  unfold _match. exact (match_loop_no_predicate meta func_map get_fields r).
Qed.

(** A rule that sets [seperator] or [txn_exclude] and none of the fields
    [_match] tests passes [check], is not a method rule, and matches every
    record under every resolver: it is a catch-all. *)
Theorem catch_all_rule (r : RuleMeta) :
  (forall k,
      field_eqb k RULE_MINUS_ACCOUNT || field_eqb k RULE_PLUS_ACCOUNT
      || field_eqb k RULE_SEPERATOR || field_eqb k RULE_TXN_EXCLUDE = false ->
      getattr r k = VNone) ->
  is_none (seperator r) && is_none (txn_exclude r) = false ->
  check r = true /\ is_txn_method r = false /\
  forall meta func_map, _match r meta func_map = (Ok true, r).
Proof.
  intros H N. split; [|split].
  - destruct (check r) eqn:E; [reflexivity|].
    pose proof (proj1 (check_false_spec r) E RULE_SEPERATOR eq_refl) as H1.
    pose proof (proj1 (check_false_spec r) E RULE_TXN_EXCLUDE eq_refl) as H2.
    cbn [getattr] in H1, H2. rewrite H1, H2 in N. discriminate N.
  - destruct (is_txn_method r) eqn:E; [|reflexivity].
    destruct (is_txn_method_accounts r E) as [_ T].
    pose proof (H RULE_TXN_METHOD eq_refl) as Hn. cbn [getattr] in Hn.
    rewrite Hn in T. discriminate T.
  - intros meta func_map. exact (match_no_predicate meta func_map r H).
Qed.

Lemma catch_all_rule_witness :
  check (rule_of [(RULE_SEPERATOR, VStr ",");
                  (RULE_PLUS_ACCOUNT, VStr "Expenses:Misc")]) = true /\
  is_txn_method (rule_of [(RULE_SEPERATOR, VStr ",");
                          (RULE_PLUS_ACCOUNT, VStr "Expenses:Misc")]) = false
  /\
  forall meta func_map,
    _match (rule_of [(RULE_SEPERATOR, VStr ",");
                     (RULE_PLUS_ACCOUNT, VStr "Expenses:Misc")])
           meta func_map =
    (Ok true, rule_of [(RULE_SEPERATOR, VStr ",");
                       (RULE_PLUS_ACCOUNT, VStr "Expenses:Misc")]).
Proof.
  apply (catch_all_rule (rule_of [(RULE_SEPERATOR, VStr ",");
                                  (RULE_PLUS_ACCOUNT, VStr "Expenses:Misc")])).
  - intros k. destruct k; intros E; try discriminate E; reflexivity.
  - reflexivity.
Defined.

(** ** Records only method rules apply to *)

Lemma last_method_account_truthy x rs acc :
  truthy acc = true -> truthy (last_method_account x rs acc) = true.
Proof.
  revert acc. induction rs as [|r rs IH]; intros acc H; [exact H|].
  rewrite last_method_account_cons. apply IH.
  unfold method_hit. destruct (is_txn_method r) eqn:E; cbn [andb];
    [|exact H].
  destruct (match x with Some v => _ | None => false end); [|exact H].
  now destruct (is_txn_method_accounts r E).
Qed.

(** When no rule other than method rules matches the record, [match]
    returns the defaults with the method account of the last method rule
    whose [txn_method] equals the record's (the default if there is none):
    the target account stays the default, no other field is set, and the
    assertion after the first loop holds. *)
Theorem match_method_rules_only
    (self : Ruler) (meta : Meta) (func_map : option resolver)
    (dm dp : value) (x : option value) :
  py_getitem (config self) _DEFAULT_MINUS = Ok dm ->
  py_getitem (config self) _DEFAULT_PLUS = Ok dp ->
  truthy dm = true -> truthy dp = true ->
  method_value meta (default_resolver func_map) = Ok x ->
  Forall (fun r =>
            check r = true /\
            (is_txn_method r = false ->
             fst (_match r meta (default_resolver func_map)) = Ok false))
         (rules self) ->
  fst (match_ self meta func_map) =
  Ok (setattr (setattr RuleMeta_init RULE_MINUS_ACCOUNT
                       (last_method_account x (rules self) dm))
              RULE_PLUS_ACCOUNT dp) /\
  (forall pre r post,
      rules self = (pre ++ r :: post)%list ->
      method_hit x r = true ->
      Forall (fun r' => method_hit x r' = false) post ->
      last_method_account x (rules self) dm = method_account r).
Proof.
  intros Hm Hp Tm Tp Hx Hrs. split.
  - pose proof (initial_ans_value _ _ _ Hm Hp Tm Tp) as I.
    assert (Hc : Forall (fun r => check r = true) (rules self)).
    { eapply Forall_impl; [|exact Hrs]. now intros r [H _]. }
    pose proof (pass1_value meta (default_resolver func_map) x (rules self)
                            (setattr (setattr RuleMeta_init
                                              RULE_MINUS_ACCOUNT dm)
                                     RULE_PLUS_ACCOUNT dp) Hx Hc) as P1.
    rewrite (match_fst meta func_map self _ _ I P1).
    rewrite pass2_nomatch.
    + cbn [outcome_result]. reflexivity.
    + eapply Forall_impl; [|exact Hrs]. intros r [H1 H2] H3. auto.
  - intros pre r post E Hr Hpost. rewrite E.
    now apply last_method_account_app.
Qed.

Lemma match_method_rules_only_witness :
  fst (match_ (mkRuler fixme_cfg [wechat_rule; jim_rule; wechat_rule2])
              [("payee", VStr "bob"); ("txn_method", VStr "wechat")] None)
  = Ok (setattr fixme_ans RULE_MINUS_ACCOUNT (method_account wechat_rule2)).
Proof.
  refine (proj1 (match_method_rules_only
                   (mkRuler fixme_cfg [wechat_rule; jim_rule; wechat_rule2])
                   [("payee", VStr "bob"); ("txn_method", VStr "wechat")]
                   None (VStr "Assets:FIXME") (VStr "Expenses:FIXME")
                   (Some (VStr "wechat"))
                   eq_refl eq_refl eq_refl eq_refl eq_refl _)).
  repeat (apply Forall_cons; [split; [reflexivity|]|]);
    [discriminate|reflexivity|discriminate|apply Forall_nil].
Defined.
